(* ===== verification/_CoqProject ===== *)
-Q . S2P
Prelude.v
Flags.v
Env.v
Cluster.v
GroupDelete.v
Cmd.v
ProgressLine.v
Effects.v
ClusterRun.v
Calls.v
StateMachine.v
