(* ===== verification/Prelude.v ===== *)
(** * Verification of kapp's [app-group delete] command

    This development models the Go file
    [src/pkg/kapp/cmd/appgroup/delete.go] of kapp (carvel) and proves
    what the command does: it deletes every application of an app group,
    one after the other, through the single-application delete
    workflow, and stops at the first error.

    ** The program and how its parts interact

    - [DeleteOptions] (delete.go, lines 21-34) holds the handles [ui],
      [depsFactory] and [logger] and the flags of the command: the group
      flags [Flags] (group [Name], [NamespaceFlags], [AppNamespace]), the
      deploy flags, and the diff and apply flags [DeleteAppFlags]
      handed to each per-application delete. [NewDeleteOptions] and
      [NewDeleteCmd] (lines 36-51) build the options and the cobra
      command whose [RunE] calls [Run].
    - [DeleteOptions.Run] (lines 53-76) rejects an empty group name
      (line 54), builds the cluster clients ([cmdapp.FactoryClients],
      line 58), lists the applications whose label
      [kapp.k14s.io/app-group] ([appGroupAnnKey], line 18) is the group
      name ([Apps.List], line 63), then calls [deleteApp] on each of
      them in list order and returns the first error (lines 68-73).
    - [deleteApp] (lines 78-92) prints a progress line, fills in a
      [cmdapp.DeleteOptions] for the one application (its name, the
      group's namespace flags and app namespace, the group's diff and
      apply flags) and runs that workflow synchronously.
    - [appNamespace] (lines 94-99) is the namespace of the progress
      line: [AppNamespace] when set, the namespace flag otherwise.

    [cmdapp.FactoryClients], [Apps.List] and [cmdapp.DeleteOptions.Run]
    are not in src/: they are modelled at the interface the spec gives
    them (sections 4.1 and 6), as a type class, and every theorem about
    the command holds for every implementation of that interface.

    ** Files and what they model

    - [Prelude] (this file): Go's [error] and the [result] of a fallible
      call; the state-and-error monad [goM] with its notation
      [x <- m ;; k] in [go_scope], the laws of [bind] used by the
      proofs and the pointwise equivalence [meq] of programs; the hint
      databases [kapp] and [kapp_rw] and the tactic [go_step]; shared
      lemmas on strings, lists and deterministic relations.
    - [Flags]: the records of delete.go ([DeleteOptions],
      [DeleteAppFlags]) and of the group and [cmdapp] flags
      ([Flags], [cmdapp.Flags], [cmdapp.DeleteOptions],
      [cmdcore.NamespaceFlags]), the handle types [ui.UI],
      [cmdcore.DepsFactory] and [logger.Logger] (interface values, by
      identity), [appGroupAnnKey], [groupSelector]
      (line 63), [appNamespace] and the progress line [deletingLine]
      (lines 79-80). The diff, apply and deploy flags are type
      parameters: the command copies them and never reads them.
    - [Env]: the interface. [KappEnv] has the three collaborators over an
      abstract cluster [W] (building clients and listing are read-only
      and may fail; a delete changes the cluster and may fail after
      partial work); [KappEnvLaws] is their contract over the view
      [env_apps] of the recorded applications (clients scoped to
      [resolveNs], listing = [listed], a successful delete =
      [removeApp], a delete touches no other application and leaves a
      sublist of the recorded ones). The command's state [St] is the
      cluster plus the ordered trace of its calls (with the handles
      they receive) and printed lines; [callFactoryClients],
      [callAppsList], [PrintLinef] and [callDelete] are the call sites.
    - [Cluster]: an implementation of the interface over a list of
      recorded applications with injectable failures, its proof of the
      laws ([cluster_laws]), and the sample data the witnesses run on.
    - [GroupDelete]: [deleteAppOpts] and [deleteApp] (lines 78-92),
      the loop [deleteEach] (lines 68-73), [Run] (lines 53-76); the
      exact result and trace of [Run] on every branch.
    - [Cmd]: [NewDeleteOptions] (lines 36-38), every flag at Go's zero
      value (class [GoZero]), and [NewDeleteCmd] (lines 40-51), the
      [cobra.Command] record whose [RunE] calls [Run], its annotation
      and its three flag registrations in order. Go's [RunE] closure
      and the registrations share the pointer [o]: the command runs in
      a state [CmdSt] holding the options cell [*o], [RunE] reads it
      when invoked ([runOpts]), and cobra's [Execute] applies pflag's
      writes through the registrations to the cell first, so [Run]
      sees the parsed flags ([Execute_NewDeleteCmd]).
    - [ProgressLine]: an executable reader [parseDeletingLine] of the
      progress line of [deleteApp] (lines 79-80).
    - [Effects]: what [Run] does to the recorded applications, against
      [KappEnvLaws]; where each error of [Run] comes from.
    - [ClusterRun]: [Run] on the concrete cluster in closed form, and
      the irrelevance of the registry's order.
    - [Calls]: the delete calls of a trace ([deleteCalls]), how many a
      run makes, that they target distinct applications, and what a
      re-run after a failure lists.
    - [StateMachine]: the spec's state machine (section 4.2) as a step
      relation, and the refinement of [Run] into it.

    ** What is proved (claims C1-C28)

    - Control flow of [Run] ([GroupDelete]): the empty name is rejected
      before any call (C1); fail-fast with the exact trace (C2); all
      members deleted in list order when every delete succeeds (C3);
      an empty group is a no-op success (C4); errors of
      [FactoryClients] and [Apps.List] are returned unchanged before any
      delete (C8, C9); only the empty name is rejected (C11).
    - The per-application delete ([GroupDelete]): every call carries the
      group's flags unchanged (C5); it is preceded by its progress line
      naming the namespace it works in (C6); the deletes are those of a
      prefix of the listed members, each once (C7); the namespace is the
      app namespace when set (C10) and the namespace flag otherwise
      (C17); the handles [depsFactory] and [logger] reach
      [FactoryClients], and [ui], [depsFactory] and [logger] reach
      every per-application delete (C23).
    - Effect on the cluster ([Effects], [Calls]): a success removes
      exactly the members' names in [appNamespace] and keeps everything
      else (C12); a re-run after success is a no-op (C13); a failure
      leaves earlier members deleted and later ones in place (C14);
      with no namespace at all no application of a named namespace is
      ever removed, whatever the outcome (C15); a success deletes
      exactly the applications labelled with the group in scope, in
      registry order (C18); nothing outside the group is ever targeted
      (C19); every error of [Run] is the unchanged error of the last
      call made, or the empty-name error with no call (C22).
    - The state machine ([StateMachine]): [Run] reaches exactly the
      machine's unique terminal configuration (C16, refinement).
    - The progress line ([ProgressLine]): it reads back as the name and
      namespace it was printed for, when the name has no quote (C20,
      round trip; [deletingLine_ambiguous] shows the quote restriction
      is needed); in the trace of [Run] each line is followed by the
      delete it announces (C21).
    - The concrete cluster ([ClusterRun]): [Run] succeeds exactly when
      the name is set, the clients and the listing do not fail and no
      member's delete fails, and then removes exactly the members
      (C24); the order in which the registry lists the applications
      changes neither whether a run succeeds nor what it leaves, up to
      order (C25, the spec's open question on ordering, section 9).
    - Calls and re-runs ([Calls]): a resolved run makes the two
      resolution calls and at most one progress line and one delete
      per member, exactly one per member when it succeeds (C26); with a
      namespace set and unique keys no application is deleted twice
      (C27); after a failure at member [b], a re-run lists a sublist of
      [b :: post], so it resumes where the run stopped (C28, the spec's
      "re-running is safe", section 7).

    ** Bounds and fuel

    No definition needs fuel: the only loop runs over the finite list
    returned by [Apps.List], so [deleteEach] is structural recursion on
    that list and [Run] is total; C7 and C26 bound the deletes by the
    length of the list. There is no machine-width arithmetic in the
    file: [len(name) == 0] is [String.length] on the name.

    ** Not modelled

    - Which values cobra and pflag write through the flag registrations
      of [NewDeleteCmd] (defaults and parsed command line): library
      code, a parameter [pflagWrites] of [Execute]; where they write,
      the cell [*o] that [RunE] reads, is modelled.
    - What the [ui], [depsFactory] and [logger] objects do: the command
      never calls a method of [depsFactory] or [logger], and of [ui]
      only [PrintLinef], modelled by the lines it prints ([EvUI]); the
      handles themselves are modelled by identity and followed through
      every call (C23).
    - The inner workings of the collaborators (resource listing, diff,
      apply-and-wait): only their interface and its laws are modelled.
      The zero [cmdapp.ResourceTypesFlags{}] passed to
      [cmdapp.FactoryClients] (line 58) is the same on every call and is
      not recorded.
    - Lines 1-16 of delete.go (package clause, imports) and the blank
      lines between declarations hold nothing to model; every other
      line of the file is translated.

    ** Findings

    - A whitespace-only group name passes the guard (C11; the spec says
      it should be rejected).
    - With an empty namespace flag and no app namespace, members are
      listed in every namespace but each delete targets the empty
      namespace, so no member of a named namespace is deleted (C15). *)

From stdpp Require Export base list strings gmap.
From Stdlib Require Export Setoid Morphisms.

Declare Scope go_scope.
Delimit Scope go_scope with go.

(** ** Go errors and results of fallible calls *)

(** A Go [error] value, identified by its message ([err.Error()]).
    [fmt.Errorf] builds one from a message. *)
Record error := Errorf { Error : string }.

#[export] Instance error_eq_dec : EqDecision error.
Proof. solve_decision. Defined.

(** The outcome of a Go call that returns [(T, error)]: a value when the
    error is [nil], the error otherwise. *)
Inductive result (A : Type) : Type :=
| Ok (a : A)
| Err (e : error).
Arguments Ok {A} a.
Arguments Err {A} e.

(** ** A state-and-error monad *)

(** [goM S A] is a Go function that may read and change the state [S]
    and returns an [A] or an error. The state reached when the error is
    returned is kept: effects that happened before a failure stay. *)
Definition goM (S A : Type) : Type := S -> result A * S.

Definition ret {S A} (a : A) : goM S A := fun s => (Ok a, s).

Definition bind {S A B} (m : goM S A) (k : A -> goM S B) : goM S B :=
  fun s =>
    match m s with
    | (Ok a, s') => k a s'
    | (Err e, s') => (Err e, s')
    end.

Definition raise {S A} (e : error) : goM S A := fun s => (Err e, s).

Definition modify {S} (f : S -> S) : goM S unit := fun s => (Ok tt, f s).

Notation "x <- m ;; k" := (bind m (fun x => k))
  (at level 100, m at next level, right associativity) : go_scope.
Notation "m ;; k" := (bind m (fun _ => k))
  (at level 100, right associativity) : go_scope.

Open Scope go_scope.

(** Two programs are equivalent when they agree on every start state. *)
Definition meq {S A} (m1 m2 : goM S A) : Prop := forall s, m1 s = m2 s.
Infix "≡ₘ" := meq (at level 70) : go_scope.

(** ** Monad laws *)

Section Laws.
Context {S : Type}.

(** Go's [f(); return nil] after a call [f] that returns only an error. *)
Lemma bind_ret_tt (m : goM S unit) : bind m (fun _ => ret tt) ≡ₘ m.
Proof. intros s. unfold bind, ret. by destruct (m s) as [[[]|] ?]. Qed.

Lemma bind_Ok {A B} (m : goM S A) (k : A -> goM S B) s a s' :
  m s = (Ok a, s') -> bind m k s = k a s'.
Proof. unfold bind. by intros ->. Qed.

Lemma bind_Err {A B} (m : goM S A) (k : A -> goM S B) s e s' :
  m s = (Err e, s') -> bind m k s = (Err e, s').
Proof. unfold bind. by intros ->. Qed.

End Laws.

Create HintDb kapp.
Create Rewrite HintDb kapp_rw.

(** [go_step H] takes one call of a [bind] chain whose first step is
    known to succeed or fail by the equation [H]. *)
Ltac go_step H :=
  first [ rewrite (bind_Ok _ _ _ _ _ H) | rewrite (bind_Err _ _ _ _ _ H) ].

(** ** Shared list facts *)

Lemma filter_idem {A} (f : A -> bool) (l : list A) :
  List.filter f (List.filter f l) = List.filter f l.
Proof.
  induction l as [|x l IH]; [done|]. cbn.
  destruct (f x) eqn:Hx; cbn; [rewrite Hx|]; congruence.
Qed.

Lemma filter_sublist {A} (f : A -> bool) (l : list A) : List.filter f l `sublist_of` l.
Proof.
  induction l as [|x l IH]; [done|]. cbn.
  destruct (f x); by constructor.
Qed.

Lemma filter_sublist_mono {A} (f : A -> bool) (l1 l2 : list A) :
  l1 `sublist_of` l2 -> List.filter f l1 `sublist_of` List.filter f l2.
Proof.
  induction 1 as [|x l1 l2 _ IH|x l1 l2 _ IH]; cbn; [done | |];
    destruct (f x); [by apply sublist_skip | exact IH | by apply sublist_cons | exact IH].
Qed.

Lemma filter_none {A} (f : A -> bool) (l : list A) :
  (forall x, In x l -> f x = false) -> List.filter f l = [].
Proof.
  induction l as [|x l IH]; intros Hf; [done|]. cbn.
  rewrite (Hf x (or_introl eq_refl)). apply IH. intros y Hy. apply Hf. by right.
Qed.

Lemma filter_filter_std {A} (f g : A -> bool) (l : list A) :
  List.filter f (List.filter g l) = List.filter (fun x => g x && f x) l.
Proof.
  induction l as [|x l IH]; [done|]. cbn.
  destruct (g x); cbn; [destruct (f x); cbn; congruence | exact IH].
Qed.

(** Filtering respects permutations. *)
#[export] Instance filter_Permutation_proper {A} (f : A -> bool) :
  Proper (Permutation ==> Permutation) (List.filter f).
Proof.
  intros l1 l2 Hp.
  induction Hp as [|x l1 l2 _ IH|x y l|l1 l2 l3 _ IH1 _ IH2]; cbn.
  - done.
  - destruct (f x); [by apply perm_skip | exact IH].
  - destruct (f x), (f y); [apply perm_swap | done | done | done].
  - by etrans.
Qed.

(** Go's [len(s) == 0] holds of the empty string only. *)
Lemma string_length_0 (s : string) : String.length s = 0 -> s = ""%string.
Proof. by destruct s. Qed.

(** ** Deterministic relations *)

(** A deterministic relation reaches at most one normal form from a
    given start. *)
Lemma rtc_deterministic_nf {A} (R : relation A) x y z :
  (forall a b c, R a b -> R a c -> b = c) ->
  rtc R x y -> rtc R x z -> nf R y -> nf R z -> y = z.
Proof.
  intros Hdet Hxy. revert z.
  induction Hxy as [x|x x' y Hx Hxy IH]; intros z Hxz Hny Hnz.
  - destruct Hxz as [|x x'' z Hx' _]; [done|]. destruct Hny. by exists x''.
  - destruct Hxz as [|x x'' z Hx' Hxz].
    + destruct Hnz. by exists x'.
    + rewrite (Hdet _ _ _ Hx Hx') in IH. by apply IH.
Qed.
