(* ===== verification/Flags.v ===== *)
(** * The flags of [app-group delete] and of the per-application delete

    The records of [src/pkg/kapp/cmd/appgroup/delete.go]
    ([DeleteOptions], [DeleteAppFlags]), of the group flags [Flags] it
    reads, and of the [cmdcore] and [cmdapp] flags it fills in for each
    application; the label key [appGroupAnnKey], the selector built from
    it, [appNamespace] and the progress line printed by [deleteApp].

    The diff, apply and deploy flags are opaque to this command: it
    copies them and never reads them, so they are type parameters
    ([DiffFlagsT], [ApplyFlagsT], [DeployFlagsT]) and every theorem holds
    for all of them. The handles [ui], [depsFactory] and [logger] are
    Go interface values that the command stores and passes on without
    calling any method of [depsFactory] or [logger]; they are modelled
    by the identity of the object they refer to ([ui.UI],
    [cmdcore.DepsFactory], [logger.Logger]), so that a theorem can say
    which handle each call receives. What printing through [ui] and the
    cluster behind [depsFactory] do is the state of the monad of
    [Env]. *)

From S2P Require Import Prelude.
Local Open Scope string_scope.

(** The [ui.UI] interface value of the command, by identity. *)
Module ui.
Record UI := mkUI { uiRef : nat }.
End ui.

(** The [logger.Logger] interface value, by identity. *)
Module logger.
Record Logger := mkLogger { loggerRef : nat }.
End logger.

(** [cmdcore.NamespaceFlags]: the [--namespace] flag; and the
    [cmdcore.DepsFactory] and [cmdcore.FlagsFactory] interface values,
    by identity. *)
Module cmdcore.
Record NamespaceFlags := mkNamespaceFlags { Name : string }.
Record DepsFactory := mkDepsFactory { depsFactoryRef : nat }.
Record FlagsFactory := mkFlagsFactory { flagsFactoryRef : nat }.
End cmdcore.

(** [cmdapp.Flags] and [cmdapp.DeleteOptions]: the flags of the
    single-application [app delete] command, filled in by [deleteApp]. *)
Module cmdapp.
Record Flags := mkFlags {
  Name : string;
  NamespaceFlags : cmdcore.NamespaceFlags;
  AppNamespace : string
}.

Record DeleteOptions {DiffFlagsT ApplyFlagsT : Type} := mkDeleteOptions {
  ui : ui.UI;
  depsFactory : cmdcore.DepsFactory;
  logger : logger.Logger;
  AppFlags : Flags;
  DiffFlags : DiffFlagsT;
  ApplyFlags : ApplyFlagsT
}.
Arguments DeleteOptions : clear implicits.
Arguments mkDeleteOptions {DiffFlagsT ApplyFlagsT}.
End cmdapp.

(** The group flags of the [appgroup] package: [--group], the namespace
    flags and [--app-namespace]. *)
Record Flags := mkFlags {
  Name : string;
  NamespaceFlags : cmdcore.NamespaceFlags;
  AppNamespace : string
}.

Section Options.
Context {DiffFlagsT ApplyFlagsT DeployFlagsT : Type}.

(** [DeleteAppFlags]: the diff and apply flags passed through to every
    per-application delete. *)
Record DeleteAppFlags := mkDeleteAppFlags {
  DiffFlags : DiffFlagsT;
  ApplyFlags : ApplyFlagsT
}.

(** [DeleteOptions] of the [appgroup] package. *)
Record DeleteOptions := mkDeleteOptions {
  ui : ui.UI;
  depsFactory : cmdcore.DepsFactory;
  logger : logger.Logger;
  AppGroupFlags : Flags;
  DeployFlags : DeployFlagsT;
  AppFlags : DeleteAppFlags
}.

(** [appNamespace]: the explicit app namespace when it is set, the
    namespace flag otherwise. *)
Definition appNamespace (o : DeleteOptions) : string :=
  if negb (String.eqb (AppNamespace (AppGroupFlags o)) "")
  then AppNamespace (AppGroupFlags o)
  else cmdcore.Name (NamespaceFlags (AppGroupFlags o)).
End Options.

Arguments DeleteAppFlags : clear implicits.
Arguments DeleteOptions : clear implicits.
Arguments mkDeleteAppFlags {DiffFlagsT ApplyFlagsT}.
Arguments mkDeleteOptions {DiffFlagsT ApplyFlagsT DeployFlagsT}.

(** The label that records the group of an application. *)
Definition appGroupAnnKey : string := "kapp.k14s.io/app-group".

(** The label selector passed to [Apps.List]: [{appGroupAnnKey: name}]. *)
Definition groupSelector (name : string) : gmap string string :=
  {[ appGroupAnnKey := name ]}.

(** The progress line of [deleteApp]:
    [fmt "--- deleting app '%s' (namespace: %s)" name ns]. *)
Definition deletingLine (name ns : string) : string :=
  "--- deleting app '" ++ name ++ "' (namespace: " ++ ns ++ ")".

Section AppNamespaceFacts.
Context {DF AF DPF : Type}.
Implicit Types o : DeleteOptions DF AF DPF.

Lemma appNamespace_override o :
  AppNamespace (AppGroupFlags o) <> "" -> appNamespace o = AppNamespace (AppGroupFlags o).
Proof.
  intros Hne. unfold appNamespace.
  destruct (String.eqb_spec (AppNamespace (AppGroupFlags o)) ""); [done | reflexivity].
Qed.

Lemma appNamespace_default o :
  AppNamespace (AppGroupFlags o) = "" ->
  appNamespace o = cmdcore.Name (NamespaceFlags (AppGroupFlags o)).
Proof. intros Hn. unfold appNamespace. by rewrite Hn. Qed.
End AppNamespaceFacts.
