(* ===== verification/Env.v ===== *)
(** * The collaborators of [app-group delete], as an interface

    [Run] calls three functions that live outside delete.go:
    [cmdapp.FactoryClients] (line 58), [Apps.List] (line 63) and
    [cmdapp.DeleteOptions.Run] (line 91), and prints through [ui]
    (line 79). This file states what the command may assume of them:

    - the class [KappEnv] gives the operations over an abstract cluster
      [W]: building the clients and listing are read-only and may fail;
      the per-application delete changes the cluster and may fail after
      doing part of its work;
    - the class [KappEnvLaws] gives their contract in terms of a view
      [env_apps] of the applications recorded in the cluster: the
      clients are scoped to the resolved namespace ([resolveNs]), listing
      returns the recorded applications in scope whose labels contain
      the selector, in registry order, and a delete removes exactly the
      application it names, touches no other, and keeps the others in
      order without adding any (a sublist), even when it fails.

    The command's state [St] is the cluster and the ordered [trace] of
    what the command did: each call to a collaborator and each line
    printed. The wrappers [callFactoryClients], [callAppsList],
    [PrintLinef] and [callDelete] are the call sites of delete.go. *)

From S2P Require Import Prelude Flags.


(** An application recorded in the cluster (its ConfigMap): name,
    namespace and labels. [Apps.List] returns handles of these whose
    [Name()] is [app_name]. *)
Record App := mkApp {
  app_name : string;
  app_ns : string;
  app_labels : gmap string string
}.

#[export] Instance App_eq_dec : EqDecision App.
Proof. solve_decision. Defined.

(** The [Apps] client of [FactorySupportObjs], scoped to a namespace;
    the empty namespace is all namespaces. *)
Record AppsClient := mkAppsClient { nsName : string }.

(** [cmdapp.FactorySupportObjs], reduced to the field the command uses. *)
Record FactorySupportObjs := mkFactorySupportObjs { Apps : AppsClient }.

(** The namespace a command works in, from its namespace flag and its
    explicit app namespace: the latter wins when it is not empty. *)
Definition resolveNs (nf : cmdcore.NamespaceFlags) (appNs : string) : string :=
  if negb (String.eqb appNs ""%string) then appNs else cmdcore.Name nf.

(** The label selector of [Apps.List]: every pair of [sel] is a label
    of the application. *)
Definition selectorMatches (sel : gmap string string) (a : App) : bool :=
  bool_decide (sel ⊆ app_labels a).

(** The application is in the scope of a client for namespace [ns]. *)
Definition inScope (ns : string) (a : App) : bool :=
  String.eqb ns ""%string || String.eqb (app_ns a) ns.

(** The recorded applications that [Apps.List] returns. *)
Definition listed (ns : string) (sel : gmap string string) (apps : list App)
  : list App :=
  List.filter (fun a => inScope ns a && selectorMatches sel a) apps.

(** The cluster's applications once application [name] of namespace
    [ns] is gone. *)
Definition removeApp (name ns : string) (apps : list App) : list App :=
  List.filter (fun a => negb (String.eqb (app_name a) name && String.eqb (app_ns a) ns))
    apps.

Lemma removeApp_idem name ns apps :
  removeApp name ns (removeApp name ns apps) = removeApp name ns apps.
Proof. apply filter_idem. Qed.

#[export] Hint Rewrite removeApp_idem : kapp_rw.

Class KappEnv (W DiffFlagsT ApplyFlagsT : Type) := {
  FactoryClients : W -> cmdcore.NamespaceFlags -> string -> result FactorySupportObjs;
  AppsList : W -> AppsClient -> gmap string string -> result (list App);
  AppDeleteRun : cmdapp.DeleteOptions DiffFlagsT ApplyFlagsT -> goM W unit
}.

(** The namespace the per-application delete works in. *)
Definition deleteNs {DF AF} (cfg : cmdapp.DeleteOptions DF AF) : string :=
  resolveNs (cmdapp.NamespaceFlags (cmdapp.AppFlags cfg))
    (cmdapp.AppNamespace (cmdapp.AppFlags cfg)).

Class KappEnvLaws (W DF AF : Type) `{!KappEnv W DF AF} := {
  env_apps : W -> list App;
  factory_clients_scope w nf appNs sup :
    FactoryClients w nf appNs = Ok sup -> nsName (Apps sup) = resolveNs nf appNs;
  apps_list_spec w c sel l :
    AppsList w c sel = Ok l -> l = listed (nsName c) sel (env_apps w);
  app_delete_ok cfg w w' :
    AppDeleteRun cfg w = (Ok tt, w') ->
    env_apps w' = removeApp (cmdapp.Name (cmdapp.AppFlags cfg)) (deleteNs cfg) (env_apps w);
  app_delete_frame cfg w r w' :
    AppDeleteRun cfg w = (r, w') ->
    removeApp (cmdapp.Name (cmdapp.AppFlags cfg)) (deleteNs cfg) (env_apps w')
    = removeApp (cmdapp.Name (cmdapp.AppFlags cfg)) (deleteNs cfg) (env_apps w);
  app_delete_sublist cfg w r w' :
    AppDeleteRun cfg w = (r, w') -> env_apps w' `sublist_of` env_apps w
}.

(** A delete never adds an application. *)
Lemma app_delete_shrinks `{KappEnvLaws W DF AF} cfg w r w' a :
  AppDeleteRun cfg w = (r, w') -> In a (env_apps w') -> In a (env_apps w).
Proof.
  intros Hd Ha%list_elem_of_In. apply list_elem_of_In.
  exact (elem_of_sublist _ _ _ Ha (app_delete_sublist _ _ _ _ Hd)).
Qed.

Section Calls.
Context {W DF AF : Type} `{!KappEnv W DF AF}.

(** What the command did, in order. *)
Inductive event :=
| EvFactoryClients (df : cmdcore.DepsFactory) (nf : cmdcore.NamespaceFlags) (appNs : string)
    (lg : logger.Logger)
| EvAppsList (c : AppsClient) (sel : gmap string string)
| EvUI (line : string)
| EvDelete (cfg : cmdapp.DeleteOptions DF AF).

Record St := mkSt { st_world : W; st_trace : list event }.

Definition record (ev : event) (s : St) : St :=
  mkSt (st_world s) (st_trace s ++ [ev]).

(** [cmdapp.FactoryClients(depsFactory, nf, appNs,
    cmdapp.ResourceTypesFlags{}, logger)]: the call records the handles
    it is given; the clients it builds reach the cluster [W]. The zero
    [ResourceTypesFlags{}] is the same on every call and is not
    recorded. *)
Definition callFactoryClients df nf appNs lg : goM St FactorySupportObjs :=
  fun s => (FactoryClients (st_world s) nf appNs, record (EvFactoryClients df nf appNs lg) s).

(** [supportObjs.Apps.List(sel)]. *)
Definition callAppsList (c : AppsClient) sel : goM St (list App) :=
  fun s => (AppsList (st_world s) c sel, record (EvAppsList c sel) s).

(** [o.ui.PrintLinef(...)]. *)
Definition PrintLinef (line : string) : goM St unit :=
  modify (record (EvUI line)).

(** [deleteOpts.Run()]: the delete workflow runs on the cluster. *)
Definition callDelete (cfg : cmdapp.DeleteOptions DF AF) : goM St unit :=
  fun s =>
    let '(r, w') := AppDeleteRun cfg (st_world s) in
    (r, mkSt w' (st_trace s ++ [EvDelete cfg])).
End Calls.

Arguments event : clear implicits.
Arguments St : clear implicits.
