(* ===== verification/Cluster.v ===== *)
(** * A concrete cluster implementing the collaborators

    An implementation of [KappEnv] over an explicit cluster: the list of
    recorded applications in registry order, and the failures to inject
    (building the clients, listing, deleting a given application). It
    follows the spec's description of the collaborators (sections 4.1
    and 6): the clients are scoped to the resolved namespace, listing
    filters the recorded applications by scope and selector, and a
    successful delete removes the application, while a delete that
    fails leaves the cluster as it was.

    [cluster_laws] proves that it satisfies [KappEnvLaws]; the theorems
    of [GroupDelete] that hold for every implementation of the interface
    are applied to it at concrete clusters. *)

From S2P Require Import Prelude Flags Env.


Record Cluster := mkCluster {
  cl_apps : list App;
  cl_factory_err : option error;
  cl_list_err : option error;
  (** the error of the delete of application [name] in namespace [ns] *)
  cl_delete_err : string -> string -> option error
}.

Definition clusterFactoryClients (c : Cluster) nf appNs : result FactorySupportObjs :=
  match cl_factory_err c with
  | Some e => Err e
  | None => Ok (mkFactorySupportObjs (mkAppsClient (resolveNs nf appNs)))
  end.

Definition clusterAppsList (c : Cluster) (ac : AppsClient) sel : result (list App) :=
  match cl_list_err c with
  | Some e => Err e
  | None => Ok (listed (nsName ac) sel (cl_apps c))
  end.

Definition withApps (c : Cluster) (apps : list App) : Cluster :=
  mkCluster apps (cl_factory_err c) (cl_list_err c) (cl_delete_err c).

Definition clusterDelete {DF AF} (cfg : cmdapp.DeleteOptions DF AF) : goM Cluster unit :=
  fun c =>
    let name := cmdapp.Name (cmdapp.AppFlags cfg) in
    match cl_delete_err c name (deleteNs cfg) with
    | Some e => (Err e, c)
    | None => (Ok tt, withApps c (removeApp name (deleteNs cfg) (cl_apps c)))
    end.

#[export] Instance cluster_env {DF AF} : KappEnv Cluster DF AF := {
  FactoryClients := clusterFactoryClients;
  AppsList := clusterAppsList;
  AppDeleteRun := clusterDelete
}.

(** No failure anywhere. *)
Definition healthy (apps : list App) : Cluster :=
  mkCluster apps None None (fun _ _ => None).

(** ** The cluster satisfies the interface laws *)

Section Laws.
Context {DF AF : Type}.

Lemma cluster_factory_scope c nf appNs sup :
  clusterFactoryClients c nf appNs = Ok sup -> nsName (Apps sup) = resolveNs nf appNs.
Proof. unfold clusterFactoryClients. destruct (cl_factory_err c); by intros [= <-]. Qed.

Lemma cluster_list_spec c ac sel l :
  clusterAppsList c ac sel = Ok l -> l = listed (nsName ac) sel (cl_apps c).
Proof. unfold clusterAppsList. destruct (cl_list_err c); by intros [= <-]. Qed.

Lemma cluster_delete_ok (cfg : cmdapp.DeleteOptions DF AF) c c' :
  clusterDelete cfg c = (Ok tt, c') ->
  cl_apps c' = removeApp (cmdapp.Name (cmdapp.AppFlags cfg)) (deleteNs cfg) (cl_apps c).
Proof. unfold clusterDelete. destruct (cl_delete_err _ _ _); by intros [= <-]. Qed.

Lemma cluster_delete_frame (cfg : cmdapp.DeleteOptions DF AF) c r c' :
  clusterDelete cfg c = (r, c') ->
  removeApp (cmdapp.Name (cmdapp.AppFlags cfg)) (deleteNs cfg) (cl_apps c')
  = removeApp (cmdapp.Name (cmdapp.AppFlags cfg)) (deleteNs cfg) (cl_apps c).
Proof.
  unfold clusterDelete. destruct (cl_delete_err _ _ _); intros [= <- <-]; cbn [withApps cl_apps];
    autorewrite with kapp_rw; reflexivity.
Qed.

Lemma cluster_delete_sublist (cfg : cmdapp.DeleteOptions DF AF) c r c' :
  clusterDelete cfg c = (r, c') -> cl_apps c' `sublist_of` cl_apps c.
Proof.
  unfold clusterDelete. destruct (cl_delete_err _ _ _); intros [= <- <-]; cbn [withApps cl_apps];
    [done|]. apply filter_sublist.
Qed.

#[export] Instance cluster_laws : KappEnvLaws Cluster DF AF := {
  env_apps := cl_apps;
  factory_clients_scope := cluster_factory_scope;
  apps_list_spec := cluster_list_spec;
  app_delete_ok := cluster_delete_ok;
  app_delete_frame := cluster_delete_frame;
  app_delete_sublist := cluster_delete_sublist
}.
End Laws.

(** ** Sample clusters and options *)

Local Open Scope string_scope.

Definition groupLabels (g : string) : gmap string string := {[ appGroupAnnKey := g ]}.

Definition appA : App := mkApp "app-a" "ns1" (groupLabels "g1").
Definition appB : App := mkApp "app-b" "ns1" (<["team":="x"]> (groupLabels "g1")).
Definition appC : App := mkApp "app-c" "ns1" (groupLabels "g1").
Definition appX : App := mkApp "app-x" "ns1" (groupLabels "other").
Definition appD : App := mkApp "app-d" "ns2" (groupLabels "g1").

(** Group [g1] has [app-a], [app-b], [app-c] in [ns1] and [app-d] in
    [ns2]; [app-x] belongs to another group. *)
Definition sampleApps : list App := [appA; appX; appB; appC; appD].

(** The delete of application [name] fails with [e]. *)
Definition failingOn (name : string) (e : error) (apps : list App) : Cluster :=
  mkCluster apps None None (fun n _ => if String.eqb n name then Some e else None).

(** Options of [kapp app-group delete -g group -n ns --app-namespace appNs]
    with some diff and apply flags. *)
Definition sampleOpts (group appNs ns : string) : DeleteOptions string bool unit :=
  mkDeleteOptions (ui.mkUI 1) (cmdcore.mkDepsFactory 2) (logger.mkLogger 3)
    (mkFlags group (cmdcore.mkNamespaceFlags ns) appNs) tt
    (mkDeleteAppFlags "--diff-changes" true).

Definition start (c : Cluster) : St Cluster string bool := mkSt c [].
