(* ===== verification/GroupDelete.v ===== *)
(** * [app-group delete]: [Run], [deleteApp] and the loop over the group

    The functions of [src/pkg/kapp/cmd/appgroup/delete.go], written over
    any implementation of the collaborators ([KappEnv]):
    - [deleteAppOpts] and [deleteApp] (lines 78-92): print the progress
      line, build the per-application options, run the delete;
    - [deleteEach] (lines 68-73): the [for] loop over the listed
      applications, returning the first error;
    - [Run] (lines 53-76): the empty-name guard, [FactoryClients],
      [Apps.List] with the group selector, the loop.

    The theorems give the exact result and trace of [Run] on each of its
    branches (C1-C4, C8, C9, C11), the configuration and the progress
    line of every per-application delete (C5, C6, C10, C17), the
    handles each delete receives (C23) and the order and number of the
    deletes (C7). [Run_cases],
    [deleteEach_trace] and [Run_trace_shape] are the shared lemmas that
    [Effects] and [StateMachine] build on. Witnesses run the claims on
    the sample clusters of [Cluster]. *)

From S2P Require Import Prelude Flags Env Cluster.

Section GroupDelete.
Context {W DF AF DPF : Type} `{!KappEnv W DF AF}.

Local Abbreviation Opts := (DeleteOptions DF AF DPF).
Local Abbreviation St := (St W DF AF).
Local Abbreviation event := (event DF AF).

(** Lines 82-89: the options of the per-application delete:
    [cmdapp.NewDeleteOptions(o.ui, o.depsFactory, o.logger)] with its
    flags then set to those of the application. *)
Definition deleteAppOpts (o : Opts) (name : string) : cmdapp.DeleteOptions DF AF :=
  cmdapp.mkDeleteOptions (ui o) (depsFactory o) (logger o)
    (cmdapp.mkFlags name (NamespaceFlags (AppGroupFlags o))
       (AppNamespace (AppGroupFlags o)))
    (DiffFlags (AppFlags o)) (ApplyFlags (AppFlags o)).

(** Lines 78-92. *)
Definition deleteApp (o : Opts) (name : string) : goM St unit :=
  PrintLinef (deletingLine name (appNamespace o)) ;;
  callDelete (deleteAppOpts o name).

(** Lines 68-73: [for _, app := range appsInGroup { err := o.deleteApp
    (app.Name()); if err != nil { return err } }]. *)
Fixpoint deleteEach (o : Opts) (appsInGroup : list App) : goM St unit :=
  match appsInGroup with
  | [] => ret tt
  | app :: rest => deleteApp o (app_name app) ;; deleteEach o rest
  end.

Definition errEmptyGroupName : error :=
  Errorf "Expected group name to be non-empty"%string.

(** Lines 53-76. *)
Definition Run (o : Opts) : goM St unit :=
  if Nat.eqb (String.length (Name (AppGroupFlags o))) 0
  then raise errEmptyGroupName
  else
    supportObjs <- callFactoryClients (depsFactory o) (NamespaceFlags (AppGroupFlags o))
                     (AppNamespace (AppGroupFlags o)) (logger o) ;;
    appsInGroup <- callAppsList (Apps supportObjs)
                     (groupSelector (Name (AppGroupFlags o))) ;;
    deleteEach o appsInGroup ;;
    ret tt.

(** ** Traces *)

(** What [deleteApp o name] adds to the trace: its progress line, then
    its call to the delete workflow. *)
Definition memberTrace (o : Opts) (name : string) : list event :=
  [EvUI (deletingLine name (appNamespace o)); EvDelete (deleteAppOpts o name)].

Definition membersTrace (o : Opts) (names : list string) : list event :=
  flat_map (memberTrace o) names.

(** The call of [FactoryClients] of [Run] (line 58). *)
Definition factoryEvent (o : Opts) : event :=
  EvFactoryClients (depsFactory o) (NamespaceFlags (AppGroupFlags o))
    (AppNamespace (AppGroupFlags o)) (logger o).

(** What [Run] adds before the loop when both calls are made. *)
Definition resolveTrace (o : Opts) (sup : FactorySupportObjs) : list event :=
  [factoryEvent o;
   EvAppsList (Apps sup) (groupSelector (Name (AppGroupFlags o)))].

(** The deletes of [names], in order, all succeed, from cluster [w] to
    cluster [w']. *)
Inductive deletesOk (o : Opts) : list string -> W -> W -> Prop :=
| deletesOk_nil w : deletesOk o [] w w
| deletesOk_cons n names w w1 w2 :
    AppDeleteRun (deleteAppOpts o n) w = (Ok tt, w1) ->
    deletesOk o names w1 w2 ->
    deletesOk o (n :: names) w w2.

Lemma membersTrace_cons o n names :
  membersTrace o (n :: names) = memberTrace o n ++ membersTrace o names.
Proof. reflexivity. Qed.

Lemma membersTrace_app o names1 names2 :
  membersTrace o (names1 ++ names2) = membersTrace o names1 ++ membersTrace o names2.
Proof. apply flat_map_app. Qed.

(** ** One member, the loop *)

Lemma deleteApp_eq o n s :
  deleteApp o n s =
  let '(r, w') := AppDeleteRun (deleteAppOpts o n) (st_world s) in
  (r, mkSt w' (st_trace s ++ memberTrace o n)).
Proof.
  unfold deleteApp, bind, PrintLinef, modify, callDelete, record; cbn.
  destruct (AppDeleteRun _ _). by rewrite <- app_assoc.
Qed.

Lemma deleteApp_run o n s r w' :
  AppDeleteRun (deleteAppOpts o n) (st_world s) = (r, w') ->
  deleteApp o n s = (r, mkSt w' (st_trace s ++ memberTrace o n)).
Proof. intros Hd. rewrite deleteApp_eq. by rewrite Hd. Qed.

Lemma deleteEach_ok o apps s w' :
  deletesOk o (map app_name apps) (st_world s) w' ->
  deleteEach o apps s =
  (Ok tt, mkSt w' (st_trace s ++ membersTrace o (map app_name apps))).
Proof.
  revert s. induction apps as [|a apps IH]; intros s Hok; inversion Hok as [|? ? ? w1 ? Hd Hrest]; subst.
  - destruct s. cbn. by rewrite app_nil_r.
  - cbn [deleteEach]. go_step (deleteApp_run o (app_name a) s _ _ Hd).
    rewrite IH by done. cbn [st_trace map]. by rewrite membersTrace_cons, app_assoc.
Qed.

Lemma deleteEach_fail o pre b post s w1 e w2 :
  deletesOk o (map app_name pre) (st_world s) w1 ->
  AppDeleteRun (deleteAppOpts o (app_name b)) w1 = (Err e, w2) ->
  deleteEach o (pre ++ b :: post) s =
  (Err e, mkSt w2 (st_trace s ++ membersTrace o (map app_name (pre ++ [b])))).
Proof.
  revert s. induction pre as [|a pre IH]; intros s Hok Hb;
    inversion Hok as [|? ? ? w0 ? Hd Hrest]; subst; cbn [app deleteEach].
  - go_step (deleteApp_run o (app_name b) s _ _ Hb). reflexivity.
  - go_step (deleteApp_run o (app_name a) s _ _ Hd).
    rewrite (IH (mkSt w0 _)) by done. cbn [st_trace map app].
    by rewrite membersTrace_cons, app_assoc.
Qed.

Lemma Run_empty_name_eq o s :
  Name (AppGroupFlags o) = ""%string -> Run o s = (Err errEmptyGroupName, s).
Proof. intros Hn. unfold Run. by rewrite Hn. Qed.

(** [Run] once the group is resolved: the loop, from the state that
    recorded both calls. *)
Lemma Run_resolved o s sup apps :
  String.length (Name (AppGroupFlags o)) <> 0 ->
  FactoryClients (st_world s) (NamespaceFlags (AppGroupFlags o))
    (AppNamespace (AppGroupFlags o)) = Ok sup ->
  AppsList (st_world s) (Apps sup) (groupSelector (Name (AppGroupFlags o))) = Ok apps ->
  Run o s = deleteEach o apps (mkSt (st_world s) (st_trace s ++ resolveTrace o sup)).
Proof.
  intros Hn Hf Hl. unfold Run. apply Nat.eqb_neq in Hn. rewrite Hn.
  rewrite (bind_Ok _ _ _ sup (record (factoryEvent o) s))
    by (unfold callFactoryClients; by rewrite Hf).
  rewrite (bind_Ok _ _ _ apps (record (EvAppsList (Apps sup)
                                 (groupSelector (Name (AppGroupFlags o))))
                               (record (factoryEvent o) s)))
    by (unfold callAppsList, record; cbn [st_world]; by rewrite Hl).
  rewrite bind_ret_tt. unfold record. cbn. by rewrite <- app_assoc.
Qed.
(** ** Every outcome of the loop and of [Run] *)

(** The loop adds the progress lines and deletes of a prefix of the
    members, all of them when it succeeds. *)
Lemma deleteEach_trace o apps s r s' :
  deleteEach o apps s = (r, s') ->
  exists names, names `prefix_of` map app_name apps /\
    st_trace s' = st_trace s ++ membersTrace o names /\
    (r = Ok tt -> names = map app_name apps).
Proof.
  revert s. induction apps as [|a apps IH]; intros [w tr] Hrun.
  - injection Hrun as <- <-. exists []. cbn. rewrite app_nil_r. done.
  - cbn [deleteEach] in Hrun. unfold bind at 1 in Hrun. rewrite deleteApp_eq in Hrun.
    cbn [st_world st_trace] in Hrun.
    destruct (AppDeleteRun _ w) as [[[]|e] w1].
    + apply IH in Hrun as (names & Hpre & Htr & Hok). cbn [st_trace] in Htr.
      exists (app_name a :: names). split_and!.
      * by apply prefix_cons.
      * rewrite Htr, membersTrace_cons. by rewrite app_assoc.
      * intros Hr. by rewrite Hok.
    + injection Hrun as <- <-. exists [app_name a]. split_and!.
      * apply prefix_cons, prefix_nil.
      * reflexivity.
      * done.
Qed.

(** The four ways [Run] can end. *)
Lemma Run_cases o s r s' :
  Run o s = (r, s') ->
  (Name (AppGroupFlags o) = ""%string /\ r = Err errEmptyGroupName /\ s' = s)
  \/ (exists e, String.length (Name (AppGroupFlags o)) <> 0 /\
       FactoryClients (st_world s) (NamespaceFlags (AppGroupFlags o))
         (AppNamespace (AppGroupFlags o)) = Err e /\
       r = Err e /\
       s' = record (factoryEvent o) s)
  \/ (exists sup e, String.length (Name (AppGroupFlags o)) <> 0 /\
       FactoryClients (st_world s) (NamespaceFlags (AppGroupFlags o))
         (AppNamespace (AppGroupFlags o)) = Ok sup /\
       AppsList (st_world s) (Apps sup) (groupSelector (Name (AppGroupFlags o))) = Err e /\
       r = Err e /\
       s' = mkSt (st_world s) (st_trace s ++ resolveTrace o sup))
  \/ (exists sup apps, String.length (Name (AppGroupFlags o)) <> 0 /\
       FactoryClients (st_world s) (NamespaceFlags (AppGroupFlags o))
         (AppNamespace (AppGroupFlags o)) = Ok sup /\
       AppsList (st_world s) (Apps sup) (groupSelector (Name (AppGroupFlags o))) = Ok apps /\
       deleteEach o apps (mkSt (st_world s) (st_trace s ++ resolveTrace o sup)) = (r, s')).
Proof.
  intros Hrun. destruct (Nat.eq_dec (String.length (Name (AppGroupFlags o))) 0) as [Hn|Hn].
  - left. apply string_length_0 in Hn.
    rewrite (Run_empty_name_eq o s Hn) in Hrun. by injection Hrun as <- <-.
  - right. destruct (FactoryClients _ _ _) as [sup|e] eqn:Hf.
    + right. destruct (AppsList (st_world s) (Apps sup) (groupSelector (Name (AppGroupFlags o))))
        as [apps|e] eqn:Hl.
      * right. exists sup, apps. rewrite <- (Run_resolved o s sup apps); auto.
      * left. exists sup, e. unfold Run in Hrun. apply Nat.eqb_neq in Hn as Hb. rewrite Hb in Hrun.
        unfold bind at 1, callFactoryClients in Hrun. rewrite Hf in Hrun.
        unfold bind at 1, callAppsList, record in Hrun. cbn [st_world] in Hrun. rewrite Hl in Hrun.
        injection Hrun as <- <-. unfold record. cbn. by rewrite <- app_assoc.
    + left. exists e. unfold Run in Hrun. apply Nat.eqb_neq in Hn as Hb. rewrite Hb in Hrun.
      unfold bind at 1, callFactoryClients in Hrun. rewrite Hf in Hrun.
      by injection Hrun as <- <-.
Qed.

(** ** The calls in a trace of [Run] *)

(** Each delete of the loop runs in the namespace its progress line
    names. *)
Lemma deleteNs_deleteAppOpts o n : deleteNs (deleteAppOpts o n) = appNamespace o.
Proof. reflexivity. Qed.

(** The loop calls no [FactoryClients]. *)
Lemma membersTrace_no_factory o names df nf ns lg :
  ~ In (EvFactoryClients df nf ns lg) (membersTrace o names).
Proof.
  unfold membersTrace. rewrite in_flat_map. intros (n & _ & Hin).
  by destruct Hin as [Hin|[Hin|[]]].
Qed.

(** Events that are not the loop's: the two resolution calls. *)
Definition isResolveEvent (ev : event) : Prop :=
  match ev with
  | EvFactoryClients _ _ _ _ | EvAppsList _ _ => True
  | _ => False
  end.

Lemma membersTrace_delete o names cfg :
  In (EvDelete cfg) (membersTrace o names) ->
  exists n, In n names /\ cfg = deleteAppOpts o n.
Proof.
  unfold membersTrace. rewrite in_flat_map. intros (n & Hn & Hin).
  destruct Hin as [Hin|[Hin|[]]]; [discriminate | injection Hin as <-; eauto].
Qed.

Lemma membersTrace_ui o names line :
  In (EvUI line) (membersTrace o names) ->
  exists n, In n names /\ line = deletingLine n (appNamespace o).
Proof.
  unfold membersTrace. rewrite in_flat_map. intros (n & Hn & Hin).
  destruct Hin as [Hin|[Hin|[]]]; [injection Hin as <-; eauto | discriminate].
Qed.

(** Right before a delete in the loop's trace is its progress line. *)
Lemma membersTrace_split o names t1 cfg t2 :
  membersTrace o names = t1 ++ EvDelete cfg :: t2 ->
  exists t1', t1 = t1' ++ [EvUI (deletingLine (cmdapp.Name (cmdapp.AppFlags cfg)) (deleteNs cfg))].
Proof.
  revert t1. induction names as [|n names IH]; intros t1 Heq.
  - by destruct t1.
  - rewrite membersTrace_cons in Heq. cbn in Heq.
    destruct t1 as [|x [|y t1]]; cbn in Heq.
    + discriminate.
    + injection Heq as <- <- _. by exists [].
    + injection Heq as <- <- Heq. destruct (IH t1 Heq) as [t1' ->].
      by exists (EvUI (deletingLine n (appNamespace o)) :: EvDelete (deleteAppOpts o n) :: t1').
Qed.

(** What [Run] adds to the trace: at most the two resolution calls,
    then the progress lines and deletes of a prefix of the members. *)
Lemma Run_trace_shape o s r s' :
  Run o s = (r, s') ->
  exists t0 names, st_trace s' = st_trace s ++ t0 ++ membersTrace o names /\
    Forall isResolveEvent t0.
Proof.
  intros Hrun.
  destruct (Run_cases o s r s' Hrun)
    as [(_ & _ & ->) | [(e & _ & _ & _ & ->) | [(sup & e & _ & _ & _ & _ & ->) |
        (sup & apps & _ & _ & _ & Hloop)]]].
  - exists [], []. cbn. by rewrite !app_nil_r.
  - exists [factoryEvent o], [].
    cbn. split; [done | repeat constructor].
  - exists (resolveTrace o sup), []. cbn. split; [done | repeat constructor].
  - apply deleteEach_trace in Hloop as (names & _ & Htr & _). cbn in Htr.
    exists (resolveTrace o sup), names. rewrite Htr, app_assoc.
    split; [done | repeat constructor].
Qed.

(** The new part of a trace of [Run] holds only calls of the loop made
    with [deleteAppOpts] and progress lines of [deleteApp]. *)
Lemma Run_new_events o s r s' :
  Run o s = (r, s') ->
  exists t, st_trace s' = st_trace s ++ t /\
    (forall cfg, In (EvDelete cfg) t -> exists n, cfg = deleteAppOpts o n) /\
    (forall line, In (EvUI line) t -> exists n, line = deletingLine n (appNamespace o)).
Proof.
  intros Hrun. destruct (Run_trace_shape o s r s' Hrun) as (t0 & names & Htr & Ht0).
  exists (t0 ++ membersTrace o names). split; [done|].
  rewrite Forall_forall in Ht0. split.
  - intros cfg [Hin|Hin]%in_app_or.
    + apply list_elem_of_In, Ht0 in Hin. done.
    + apply membersTrace_delete in Hin as (n & _ & ->). eauto.
  - intros line [Hin|Hin]%in_app_or.
    + apply list_elem_of_In, Ht0 in Hin. done.
    + apply membersTrace_ui in Hin as (n & _ & ->). eauto.
Qed.

End GroupDelete.

(** ** The claims about [Run] *)

Section RunTheorems.
Context {W DF AF DPF : Type} `{!KappEnv W DF AF}.
Implicit Types (o : DeleteOptions DF AF DPF) (s : St W DF AF).

(** C1: an empty group name is rejected with "Expected group name to
    be non-empty" before any call: no client is built, nothing is
    listed or printed, and the cluster is unchanged. *)
Theorem Run_empty_name o s :
  Name (AppGroupFlags o) = ""%string -> Run o s = (Err errEmptyGroupName, s).
Proof. intros Hn. unfold Run. by rewrite Hn. Qed.

(** C2: fail-fast. When the members are [pre ++ b :: post], the deletes
    of [pre] succeed and the delete of [b] fails with [e], [Run]
    returns [e]; the trace holds the two resolution calls, then the
    progress line and delete of each member of [pre] and of [b], and
    nothing of [post]; the cluster is the one the failing delete
    left. *)
Theorem Run_fail_fast o s sup pre b post w1 e w2 :
  String.length (Name (AppGroupFlags o)) <> 0 ->
  FactoryClients (st_world s) (NamespaceFlags (AppGroupFlags o))
    (AppNamespace (AppGroupFlags o)) = Ok sup ->
  AppsList (st_world s) (Apps sup) (groupSelector (Name (AppGroupFlags o)))
    = Ok (pre ++ b :: post) ->
  deletesOk o (map app_name pre) (st_world s) w1 ->
  AppDeleteRun (deleteAppOpts o (app_name b)) w1 = (Err e, w2) ->
  Run o s =
  (Err e, mkSt w2 (st_trace s ++ resolveTrace o sup
                   ++ membersTrace o (map app_name (pre ++ [b])))).
Proof.
  intros Hn Hf Hl Hok Hb. rewrite (Run_resolved o s sup _ Hn Hf Hl).
  erewrite deleteEach_fail by eassumption. cbn [st_trace]. by rewrite app_assoc.
Qed.

(** C3: when every member's delete succeeds, [Run] succeeds after
    deleting the members in the order [Apps.List] returned them, each
    delete preceded by its progress line. *)
Theorem Run_all_deleted o s sup apps w' :
  String.length (Name (AppGroupFlags o)) <> 0 ->
  FactoryClients (st_world s) (NamespaceFlags (AppGroupFlags o))
    (AppNamespace (AppGroupFlags o)) = Ok sup ->
  AppsList (st_world s) (Apps sup) (groupSelector (Name (AppGroupFlags o))) = Ok apps ->
  deletesOk o (map app_name apps) (st_world s) w' ->
  Run o s =
  (Ok tt, mkSt w' (st_trace s ++ resolveTrace o sup ++ membersTrace o (map app_name apps))).
Proof.
  intros Hn Hf Hl Hok. rewrite (Run_resolved o s sup _ Hn Hf Hl).
  erewrite deleteEach_ok by eassumption. cbn [st_trace]. by rewrite app_assoc.
Qed.

(** C4: a group with no member is deleted successfully without calling
    the delete workflow: only the two resolution calls are made and
    the cluster is unchanged. *)
Theorem Run_no_members o s sup :
  String.length (Name (AppGroupFlags o)) <> 0 ->
  FactoryClients (st_world s) (NamespaceFlags (AppGroupFlags o))
    (AppNamespace (AppGroupFlags o)) = Ok sup ->
  AppsList (st_world s) (Apps sup) (groupSelector (Name (AppGroupFlags o))) = Ok [] ->
  Run o s = (Ok tt, mkSt (st_world s) (st_trace s ++ resolveTrace o sup)).
Proof.
  intros Hn Hf Hl. by rewrite (Run_resolved o s sup _ Hn Hf Hl).
Qed.

(** C5: every call of the per-application delete workflow made by [Run]
    carries the group's diff flags, apply flags, namespace flags and
    app namespace, unchanged: members differ only by name. *)
Theorem Run_delete_options_uniform o s :
  exists t, st_trace (Run o s).2 = st_trace s ++ t /\
    forall cfg, In (EvDelete cfg) t ->
      cmdapp.DiffFlags cfg = DiffFlags (AppFlags o) /\
      cmdapp.ApplyFlags cfg = ApplyFlags (AppFlags o) /\
      cmdapp.NamespaceFlags (cmdapp.AppFlags cfg) = NamespaceFlags (AppGroupFlags o) /\
      cmdapp.AppNamespace (cmdapp.AppFlags cfg) = AppNamespace (AppGroupFlags o).
Proof.
  destruct (Run o s) as [r s'] eqn:Hrun.
  destruct (Run_new_events o s r s' Hrun) as (t & Ht & Hd & _).
  exists t. split; [done|]. intros cfg Hin. by destruct (Hd cfg Hin) as [n ->].
Qed.

(** C6: right before each call of the delete workflow, [Run] prints
    "--- deleting app '<name>' (namespace: <ns>)" for the application it
    deletes and the namespace that delete works in. *)
Theorem Run_line_before_delete o s t1 cfg t2 :
  st_trace (Run o s).2 = st_trace s ++ t1 ++ EvDelete cfg :: t2 ->
  exists t1', t1 = t1' ++
    [EvUI (deletingLine (cmdapp.Name (cmdapp.AppFlags cfg)) (deleteNs cfg))].
Proof.
  destruct (Run o s) as [r s'] eqn:Hrun. cbn [snd]. intros Htr.
  destruct (Run_trace_shape o s r s' Hrun) as (t0 & names & Htr' & Ht0).
  rewrite Htr' in Htr. apply app_inv_head in Htr.
  apply app_eq_app in Htr as ([|x k] & [[-> Hk] | [-> Hk]]).
  - destruct (membersTrace_split o names [] cfg t2) as [t1' Hnil];
      [cbn in *; congruence | by destruct t1'].
  - destruct (membersTrace_split o names [] cfg t2) as [t1' Hnil];
      [cbn in *; congruence | by destruct t1'].
  - injection Hk as <- _. rewrite Forall_app, Forall_cons in Ht0. by destruct Ht0 as (_ & [] & _).
  - destruct (membersTrace_split o names (x :: k) cfg t2 Hk) as [t1' ->].
    exists (t0 ++ t1'). by rewrite app_assoc.
Qed.

(** C7: once the group is resolved to [apps], [Run] deletes the members
    of a prefix of [apps], in list order, each once (so at most
    [length apps] deletes), and all of them when it succeeds. *)
Theorem Run_deletes_members_in_order o s sup apps :
  String.length (Name (AppGroupFlags o)) <> 0 ->
  FactoryClients (st_world s) (NamespaceFlags (AppGroupFlags o))
    (AppNamespace (AppGroupFlags o)) = Ok sup ->
  AppsList (st_world s) (Apps sup) (groupSelector (Name (AppGroupFlags o))) = Ok apps ->
  exists names, names `prefix_of` map app_name apps /\
    st_trace (Run o s).2 = st_trace s ++ resolveTrace o sup ++ membersTrace o names /\
    ((Run o s).1 = Ok tt -> names = map app_name apps).
Proof.
  intros Hn Hf Hl. rewrite (Run_resolved o s sup apps Hn Hf Hl).
  destruct (deleteEach o apps _) as [r s'] eqn:Hloop.
  apply deleteEach_trace in Hloop as (names & Hpre & Htr & Hok).
  exists names. cbn in *. rewrite Htr. by rewrite <- app_assoc.
Qed.

(** C8: when building the clients fails, [Run] returns that error
    unchanged, after that one call: nothing is listed or deleted. *)
Theorem Run_factory_error o s e :
  String.length (Name (AppGroupFlags o)) <> 0 ->
  FactoryClients (st_world s) (NamespaceFlags (AppGroupFlags o))
    (AppNamespace (AppGroupFlags o)) = Err e ->
  Run o s = (Err e, record (factoryEvent o) s).
Proof.
  intros Hn Hf. unfold Run. apply Nat.eqb_neq in Hn. rewrite Hn.
  unfold bind at 1, callFactoryClients. by rewrite Hf.
Qed.

(** C9: when listing the group fails, [Run] returns that error unchanged
    before any delete: the cluster is untouched. *)
Theorem Run_list_error o s sup e :
  String.length (Name (AppGroupFlags o)) <> 0 ->
  FactoryClients (st_world s) (NamespaceFlags (AppGroupFlags o))
    (AppNamespace (AppGroupFlags o)) = Ok sup ->
  AppsList (st_world s) (Apps sup) (groupSelector (Name (AppGroupFlags o))) = Err e ->
  Run o s = (Err e, mkSt (st_world s) (st_trace s ++ resolveTrace o sup)).
Proof.
  intros Hn Hf Hl. unfold Run. apply Nat.eqb_neq in Hn. rewrite Hn.
  unfold bind at 1, callFactoryClients. rewrite Hf.
  unfold bind at 1, callAppsList, record. cbn [st_world]. rewrite Hl.
  cbn. by rewrite <- app_assoc.
Qed.

(** C10: with an explicit app namespace [ns1] (whatever the namespace
    flag), every progress line of [Run] names [ns1] and every delete
    works in [ns1]. *)
Theorem Run_app_namespace_override o s :
  AppNamespace (AppGroupFlags o) <> ""%string ->
  exists t, st_trace (Run o s).2 = st_trace s ++ t /\
    (forall line, In (EvUI line) t ->
       exists n, line = deletingLine n (AppNamespace (AppGroupFlags o))) /\
    (forall cfg, In (EvDelete cfg) t -> deleteNs cfg = AppNamespace (AppGroupFlags o)).
Proof.
  intros Hne. rewrite <- (appNamespace_override o Hne).
  destruct (Run o s) as [r s'] eqn:Hrun.
  destruct (Run_new_events o s r s' Hrun) as (t & Ht & Hd & Hu).
  exists t. split_and!; [done | done |].
  intros cfg Hin. destruct (Hd cfg Hin) as [n ->]. apply deleteNs_deleteAppOpts.
Qed.

(** C17: with no explicit app namespace, every progress line of [Run]
    names the namespace flag and every delete works in it. *)
Theorem Run_app_namespace_default o s :
  AppNamespace (AppGroupFlags o) = ""%string ->
  exists t, st_trace (Run o s).2 = st_trace s ++ t /\
    (forall line, In (EvUI line) t ->
       exists n, line = deletingLine n (cmdcore.Name (NamespaceFlags (AppGroupFlags o)))) /\
    (forall cfg, In (EvDelete cfg) t ->
       deleteNs cfg = cmdcore.Name (NamespaceFlags (AppGroupFlags o))).
Proof.
  intros Hn. rewrite <- (appNamespace_default o Hn).
  destruct (Run o s) as [r s'] eqn:Hrun.
  destruct (Run_new_events o s r s' Hrun) as (t & Ht & Hd & Hu).
  exists t. split_and!; [done | done |].
  intros cfg Hin. destruct (Hd cfg Hin) as [n ->]. apply deleteNs_deleteAppOpts.
Qed.

(** C11: the guard only rejects the empty name: any other group name,
    whitespace included, goes on to build the clients. *)
Theorem Run_nonempty_name_proceeds o s :
  Name (AppGroupFlags o) <> ""%string ->
  exists t, st_trace (Run o s).2 =
    st_trace s ++ factoryEvent o :: t.
Proof.
  intros Hne. destruct (Run o s) as [r s'] eqn:Hrun. cbn [snd].
  destruct (Run_cases o s r s' Hrun)
    as [(Hn & _) | [(e & _ & _ & _ & ->) | [(sup & e & _ & _ & _ & _ & ->) |
        (sup & apps & _ & _ & _ & Hloop)]]].
  - done.
  - by exists [].
  - eexists. reflexivity.
  - apply deleteEach_trace in Hloop as (names & _ & Htr & _). cbn [st_trace] in Htr.
    exists (EvAppsList (Apps sup) (groupSelector (Name (AppGroupFlags o))) :: membersTrace o names).
    rewrite Htr. unfold resolveTrace. by rewrite <- app_assoc.
Qed.
(** C23: the handles are passed through. [FactoryClients] is called
    with the command's own [depsFactory] and [logger], and every
    per-application delete is built by
    [cmdapp.NewDeleteOptions(o.ui, o.depsFactory, o.logger)] from the
    command's three handles. *)
Theorem Run_passes_handles o s :
  exists t, st_trace (Run o s).2 = st_trace s ++ t /\
    (forall df nf ns lg, In (EvFactoryClients df nf ns lg) t ->
       df = depsFactory o /\ lg = logger o) /\
    (forall cfg, In (EvDelete cfg) t ->
       cmdapp.ui cfg = ui o /\ cmdapp.depsFactory cfg = depsFactory o /\
       cmdapp.logger cfg = logger o).
Proof.
  destruct (Run o s) as [r s'] eqn:Hrun. cbn [snd].
  destruct (Run_cases o s r s' Hrun)
    as [(_ & _ & ->) | [(e & _ & _ & _ & ->) | [(sup & e & _ & _ & _ & _ & ->) |
        (sup & apps & _ & _ & _ & Hloop)]]].
  - exists []. rewrite app_nil_r. split_and!; [done | intros ????[] | intros ?[]].
  - exists [factoryEvent o]. split_and!; [done | |].
    + intros ???? [[= -> _ _ ->]|[]]. done.
    + intros ? [[=]|[]].
  - exists (resolveTrace o sup). split_and!; [done | |].
    + intros ???? [[= -> _ _ ->]|[[=]|[]]]. done.
    + intros ? [[=]|[[=]|[]]].
  - apply deleteEach_trace in Hloop as (names & _ & Htr & _). cbn [st_trace] in Htr.
    exists (resolveTrace o sup ++ membersTrace o names). split_and!.
    + by rewrite Htr, app_assoc.
    + intros df nf ns lg [[[= -> _ _ ->]|[[=]|[]]]|Hin]%in_app_or; [done|].
      by apply membersTrace_no_factory in Hin.
    + intros cfg [[[=]|[[=]|[]]]|Hin]%in_app_or.
      apply membersTrace_delete in Hin as (n & _ & ->). done.
Qed.

End RunTheorems.

(** ** Witnesses at concrete clusters *)

Local Open Scope string_scope.

Lemma Run_empty_name_witness :
  Run (sampleOpts "" "" "ns1") (start (healthy sampleApps))
  = (Err errEmptyGroupName, start (healthy sampleApps)).
Proof. apply Run_empty_name. reflexivity. Defined.

Lemma Run_fail_fast_witness :
  let c := failingOn "app-b" (Errorf "timed out") sampleApps in
  let o := sampleOpts "g1" "" "ns1" in
  Run o (start c) =
  (Err (Errorf "timed out"),
   mkSt (withApps c (removeApp "app-a" "ns1" sampleApps))
     (resolveTrace o (mkFactorySupportObjs (mkAppsClient "ns1"))
      ++ membersTrace o ["app-a"; "app-b"])%list).
Proof.
  intros c o. eapply (Run_fail_fast o (start c) _ [appA] appB [appC]).
  - cbn. lia.
  - reflexivity.
  - vm_compute. reflexivity.
  - econstructor; [reflexivity | constructor].
  - reflexivity.
Defined.

Lemma Run_all_deleted_witness :
  let c := healthy sampleApps in
  let o := sampleOpts "g1" "" "ns1" in
  Run o (start c) =
  (Ok tt, mkSt (healthy [appX; appD])
            (resolveTrace o (mkFactorySupportObjs (mkAppsClient "ns1"))
             ++ membersTrace o ["app-a"; "app-b"; "app-c"])).
Proof.
  intros c o. eapply (Run_all_deleted o (start c) _ [appA; appB; appC]).
  - cbn. lia.
  - reflexivity.
  - vm_compute. reflexivity.
  - econstructor; [reflexivity|]. econstructor; [reflexivity|].
    econstructor; [reflexivity|]. constructor.
Defined.

Lemma Run_no_members_witness :
  let c := healthy sampleApps in
  let o := sampleOpts "g2" "" "ns1" in
  Run o (start c) =
  (Ok tt, mkSt c (resolveTrace o (mkFactorySupportObjs (mkAppsClient "ns1")))).
Proof.
  intros c o. apply (Run_no_members o (start c) (mkFactorySupportObjs (mkAppsClient "ns1"))).
  - cbn. lia.
  - reflexivity.
  - vm_compute. reflexivity.
Defined.

Lemma Run_line_before_delete_witness :
  let o := sampleOpts "g1" "" "ns1" in
  exists t1', (resolveTrace o (mkFactorySupportObjs (mkAppsClient "ns1"))
              ++ memberTrace o "app-a" ++ [EvUI (deletingLine "app-b" "ns1")]
    = t1' ++ [EvUI (deletingLine (cmdapp.Name (cmdapp.AppFlags (deleteAppOpts o "app-b")))
                     (deleteNs (deleteAppOpts o "app-b")))])%list.
Proof.
  intros o. apply (Run_line_before_delete o (start (healthy sampleApps)) _ _
                     (memberTrace o "app-c")).
  vm_compute. reflexivity.
Defined.

Lemma Run_deletes_members_in_order_witness :
  let o := sampleOpts "g1" "" "ns1" in
  let s := start (failingOn "app-b" (Errorf "timed out") sampleApps) in
  exists names, names `prefix_of` map app_name [appA; appB; appC] /\
    st_trace (Run o s).2 = (st_trace s ++ resolveTrace o (mkFactorySupportObjs (mkAppsClient "ns1"))
                           ++ membersTrace o names)%list /\
    ((Run o s).1 = Ok tt -> names = map app_name [appA; appB; appC]).
Proof.
  intros o s. apply Run_deletes_members_in_order.
  - cbn. lia.
  - reflexivity.
  - vm_compute. reflexivity.
Defined.

Lemma Run_factory_error_witness :
  let o := sampleOpts "g1" "" "ns1" in
  let s := start (mkCluster sampleApps (Some (Errorf "no kubeconfig")) None (fun _ _ => None)) in
  Run o s = (Err (Errorf "no kubeconfig"),
             record (EvFactoryClients (cmdcore.mkDepsFactory 2) (cmdcore.mkNamespaceFlags "ns1") "" (logger.mkLogger 3)) s).
Proof.
  intros o s. apply Run_factory_error.
  - cbn. lia.
  - reflexivity.
Defined.

Lemma Run_list_error_witness :
  let o := sampleOpts "g1" "" "ns1" in
  let s := start (mkCluster sampleApps None (Some (Errorf "forbidden")) (fun _ _ => None)) in
  Run o s = (Err (Errorf "forbidden"),
             mkSt (st_world s) (resolveTrace o (mkFactorySupportObjs (mkAppsClient "ns1")))).
Proof.
  intros o s. apply (Run_list_error o s (mkFactorySupportObjs (mkAppsClient "ns1"))).
  - cbn. lia.
  - reflexivity.
  - reflexivity.
Defined.

Lemma Run_app_namespace_override_witness :
  let o := sampleOpts "g1" "ns1" "ns2" in
  exists t, st_trace (Run o (start (healthy sampleApps))).2 = t /\
    (forall line, In (EvUI line) t -> exists n, line = deletingLine n "ns1") /\
    (forall cfg, In (EvDelete cfg) t -> deleteNs cfg = "ns1").
Proof.
  intros o. apply (Run_app_namespace_override o (start (healthy sampleApps))). discriminate.
Defined.

Lemma Run_app_namespace_default_witness :
  let o := sampleOpts "g1" "" "ns1" in
  exists t, st_trace (Run o (start (healthy sampleApps))).2 = t /\
    (forall line, In (EvUI line) t -> exists n, line = deletingLine n "ns1") /\
    (forall cfg, In (EvDelete cfg) t -> deleteNs cfg = "ns1").
Proof.
  intros o. apply (Run_app_namespace_default o (start (healthy sampleApps))). reflexivity.
Defined.

Lemma Run_nonempty_name_proceeds_witness :
  let o := sampleOpts "  " "" "ns1" in
  exists t, st_trace (Run o (start (healthy sampleApps))).2 =
    EvFactoryClients (cmdcore.mkDepsFactory 2) (cmdcore.mkNamespaceFlags "ns1") "" (logger.mkLogger 3) :: t.
Proof.
  intros o. apply (Run_nonempty_name_proceeds o (start (healthy sampleApps))). discriminate.
Defined.
