(* ===== verification/Cmd.v ===== *)
(** * The command constructors: [NewDeleteOptions] and [NewDeleteCmd]

    Lines 36-51 of delete.go build the options and the cobra command:
    - [NewDeleteOptions] (lines 36-38) stores the [ui], [depsFactory] and
      [logger] handles it is given and leaves every flag at its Go zero
      value. Go's zero value of a type is the
      class [GoZero]; the opaque diff, apply and deploy flag types
      provide theirs.
    - [NewDeleteCmd] (lines 40-51) builds a [cobra.Command] whose [RunE]
      ignores its arguments and calls [o.Run()], marks it
      tty-by-default, and registers the group flags (with the
      [flagsFactory] it is given), the diff flags under the prefix
      [diff] and the apply flags with the delete defaults, in that
      order.

    [o] is a pointer: the registrations bind pflag flags to fields of
    [*o], and [RunE] reads [*o] when it is invoked, after pflag has
    written the defaults and the parsed command line into it. The
    command's state [CmdSt] is that one options cell beside the state of
    [Run]; [RunE] reads the cell ([runOpts]). [Execute] is cobra's
    [cmd.Execute()]: the writes pflag makes through the registrations
    are a parameter [pflagWrites] (library code, not in src/), applied
    to the cell before [RunE] runs. [Execute_NewDeleteCmd] shows that
    the options [Run] sees are the ones those writes left in [*o]. *)

From S2P Require Import Prelude Flags Env Cluster GroupDelete.

(** Go's zero value of a type. *)
Class GoZero (T : Type) := zero : T.

#[export] Instance string_zero : GoZero string := ""%string.
#[export] Instance bool_zero : GoZero bool := false.
#[export] Instance unit_zero : GoZero unit := tt.

#[export] Instance namespaceFlags_zero : GoZero cmdcore.NamespaceFlags :=
  cmdcore.mkNamespaceFlags zero.
#[export] Instance flags_zero : GoZero Flags := mkFlags zero zero zero.
#[export] Instance deleteAppFlags_zero {DF AF} `{GoZero DF, GoZero AF} :
  GoZero (DeleteAppFlags DF AF) := mkDeleteAppFlags zero zero.

(** Lines 36-38: [&DeleteOptions{ui: ui, depsFactory: depsFactory,
    logger: logger}]. *)
Definition NewDeleteOptions {DF AF DPF} `{GoZero DF, GoZero AF, GoZero DPF}
    (ui : ui.UI) (depsFactory : cmdcore.DepsFactory) (logger : logger.Logger)
  : DeleteOptions DF AF DPF :=
  mkDeleteOptions ui depsFactory logger zero zero zero.

(** [cmdapp.TTYByDefaultKey], the only annotation the command sets. *)
Inductive Annotation := TTYByDefaultKey.

(** [cmdapp.ApplyFlagsDeleteDefaults], the defaults of the apply flags of
    a delete. *)
Inductive ApplyFlagsDefaults := ApplyFlagsDeleteDefaults.

(** The flag registrations of lines 47-49: each binds a field of [*o]
    ([AppGroupFlags], [AppFlags.DiffFlags], [AppFlags.ApplyFlags]) that
    pflag writes. *)
Inductive FlagRegistration :=
| SetAppGroupFlags (flagsFactory : cmdcore.FlagsFactory)
| SetDiffFlagsWithPrefix (prefix : string)
| SetApplyFlagsWithDefaults (prefix : string) (defaults : ApplyFlagsDefaults).

(** The state a command runs in: the options cell [*o], shared by [RunE]
    and the flag registrations, beside the state [S] of [Run]. *)
Record CmdSt (O S : Type) := mkCmdSt { cmd_opts : O; cmd_st : S }.
Arguments mkCmdSt {O S}.
Arguments cmd_opts {O S}.
Arguments cmd_st {O S}.

(** The fields of [cobra.Command] the command sets, and its flags. *)
Record Command (O S : Type) := mkCommand {
  Use : string;
  Short : string;
  RunE : list string -> goM (CmdSt O S) unit;
  Annotations : list (Annotation * string);
  FlagSets : list FlagRegistration
}.
Arguments mkCommand {O S}.
Arguments Use {O S}.
Arguments Short {O S}.
Arguments RunE {O S}.
Arguments Annotations {O S}.
Arguments FlagSets {O S}.

(** cobra's [cmd.Execute()] on a command line: pflag writes through the
    registered flags into [*o] ([pflagWrites]), then [RunE] runs. *)
Definition Execute {O S} (pflagWrites : list FlagRegistration -> list string -> O -> O)
    (cmd : Command O S) (args : list string) : goM (CmdSt O S) unit :=
  modify (fun cs => mkCmdSt (pflagWrites (FlagSets cmd) args (cmd_opts cs)) (cmd_st cs)) ;;
  RunE cmd args.

Section Command.
Context {W DF AF DPF : Type} `{!KappEnv W DF AF}.

Local Abbreviation Opts := (DeleteOptions DF AF DPF).
Local Abbreviation St := (St W DF AF).

(** Line 43: [o.Run()], its receiver read through the pointer [o] when
    [RunE] is invoked. *)
Definition runOpts : goM (CmdSt Opts St) unit := fun cs =>
  let '(r, s') := Run (cmd_opts cs) (cmd_st cs) in (r, mkCmdSt (cmd_opts cs) s').

(** Lines 40-51. *)
Definition NewDeleteCmd (flagsFactory : cmdcore.FlagsFactory) : Command Opts St :=
  mkCommand "delete"%string "Delete app group"%string (fun _ => runOpts)
    [(TTYByDefaultKey, ""%string)]
    [SetAppGroupFlags flagsFactory; SetDiffFlagsWithPrefix "diff"%string;
     SetApplyFlagsWithDefaults ""%string ApplyFlagsDeleteDefaults].

(** Running the command runs [Run] on the options that the flag writes
    left in [*o], and keeps them there. *)
Lemma Execute_NewDeleteCmd pflagWrites flagsFactory args o s :
  Execute pflagWrites (NewDeleteCmd flagsFactory) args (mkCmdSt o s) =
  let o' := pflagWrites (FlagSets (NewDeleteCmd flagsFactory)) args o in
  ((Run o' s).1, mkCmdSt o' (Run o' s).2).
Proof.
  cbn. unfold runOpts. cbn [cmd_opts cmd_st]. by destruct (Run _ s).
Qed.

End Command.
