(* ===== verification/ProgressLine.v ===== *)
(** * Reading back the progress line of [deleteApp]

    [deleteApp] prints [--- deleting app '<name>' (namespace: <ns>)]
    (delete.go, lines 79-80; [deletingLine]). The spec asks that the
    notice name the application and its namespace. This file gives an
    executable reader [parseDeletingLine] of that format and proves the
    round trip: the line of an application whose name has no quote
    character, the case of every Kubernetes object name, reads back as
    that name and namespace ([parseDeletingLine_deletingLine]). The
    quote restriction is needed: [deletingLine_ambiguous] shows two
    different pairs that print the same line.

    The reader works on [string] by recursion on its constructors:
    [stripPrefix], [untilQuote] (split before the first quote) and
    [dropCloseParen] (remove the final [")"]). *)

From Stdlib Require Import Ascii.
From S2P Require Import Prelude Flags Env Cluster GroupDelete.
Local Open Scope string_scope.

Definition quote : Ascii.ascii := "'"%char.

(** [hasQuote s]: [s] contains a quote character. *)
Fixpoint hasQuote (s : string) : bool :=
  match s with
  | EmptyString => false
  | String c s' => Ascii.eqb c quote || hasQuote s'
  end.

(** [s] without the prefix [p], when [p] is a prefix of it. *)
Fixpoint stripPrefix (p s : string) : option string :=
  match p, s with
  | EmptyString, _ => Some s
  | String c p', String d s' => if Ascii.eqb c d then stripPrefix p' s' else None
  | String _ _, EmptyString => None
  end.

(** The part of [s] before its first quote, and the rest from that
    quote on. *)
Fixpoint untilQuote (s : string) : option (string * string) :=
  match s with
  | EmptyString => None
  | String c s' =>
      if Ascii.eqb c quote then Some (EmptyString, s)
      else option_map (fun '(a, b) => (String c a, b)) (untilQuote s')
  end.

(** [s] without its final [")"], when it ends with one. *)
Fixpoint dropCloseParen (s : string) : option string :=
  match s with
  | EmptyString => None
  | String c EmptyString => if Ascii.eqb c ")"%char then Some EmptyString else None
  | String c s' => option_map (String c) (dropCloseParen s')
  end.

Definition linePrefix : string := "--- deleting app '".
Definition lineMiddle : string := "' (namespace: ".

(** Read a progress line back into the application name and namespace. *)
Definition parseDeletingLine (line : string) : option (string * string) :=
  match stripPrefix linePrefix line with
  | None => None
  | Some rest =>
      match untilQuote rest with
      | None => None
      | Some (name, rest') =>
          match stripPrefix lineMiddle rest' with
          | None => None
          | Some rest'' => option_map (fun ns => (name, ns)) (dropCloseParen rest'')
          end
      end
  end.

(** ** The pieces of the reader *)

Lemma stripPrefix_app p s : stripPrefix p (p ++ s) = Some s.
Proof.
  induction p as [|c p IH]; [done|]. simpl. by rewrite Ascii.eqb_refl.
Qed.

Lemma untilQuote_app name s :
  hasQuote name = false -> untilQuote (name ++ String quote s) = Some (name, String quote s).
Proof.
  induction name as [|c name IH]; intros Hq; simpl in *.
  - done.
  - apply orb_false_iff in Hq as [Hc Hq]. rewrite Hc, IH by done. done.
Qed.

Lemma dropCloseParen_app ns : dropCloseParen (ns ++ ")") = Some ns.
Proof.
  induction ns as [|c ns IH]; [done|]. cbn.
  destruct ns as [|c' ns']; [done|]. simpl in *. by rewrite IH.
Qed.

Lemma deletingLine_pieces name ns :
  deletingLine name ns = linePrefix ++ name ++ lineMiddle ++ ns ++ ")".
Proof. reflexivity. Qed.

Lemma lineMiddle_quote t : lineMiddle ++ t = String quote (" (namespace: " ++ t).
Proof. reflexivity. Qed.

(** ** Round trip *)

(** C20: the progress line of an application whose name has no quote
    reads back as that name and that namespace. *)
Theorem parseDeletingLine_deletingLine name ns :
  hasQuote name = false -> parseDeletingLine (deletingLine name ns) = Some (name, ns).
Proof.
  intros Hq. unfold parseDeletingLine.
  rewrite deletingLine_pieces, stripPrefix_app, lineMiddle_quote, untilQuote_app by done.
  by rewrite <- lineMiddle_quote, stripPrefix_app, dropCloseParen_app.
Qed.

Lemma parseDeletingLine_deletingLine_witness :
  hasQuote "app-a" = false /\ parseDeletingLine (deletingLine "app-a" "ns1") = Some ("app-a", "ns1").
Proof. split; [reflexivity | apply parseDeletingLine_deletingLine; reflexivity]. Defined.

(** A name with a quote can make two different applications print the
    same line. *)
Example deletingLine_ambiguous :
  deletingLine "a' (namespace: b" "c" = deletingLine "a" "b' (namespace: c".
Proof. reflexivity. Qed.

(** ** The progress lines of a run *)

Local Close Scope string_scope.

Section RunLines.
Context {W DF AF DPF : Type} `{!KappEnv W DF AF}.
Implicit Types (o : DeleteOptions DF AF DPF) (s : St W DF AF).

(** An event that is not a resolution call, found after a run of
    resolution calls, lies in what follows them. *)
Lemma resolve_prefix_split (t0 m t1 t2 : list (event DF AF)) ev :
  Forall isResolveEvent t0 -> ~ isResolveEvent ev ->
  t0 ++ m = t1 ++ ev :: t2 -> exists t1', m = t1' ++ ev :: t2.
Proof.
  revert t1. induction t0 as [|x t0 IH]; intros t1 Hf Hev Heq; cbn in Heq.
  - by exists t1.
  - apply Forall_cons in Hf as [Hx Hf].
    destruct t1 as [|y t1]; cbn in Heq; injection Heq as -> Heq; [done|eauto].
Qed.

(** In the loop's trace, each progress line is followed by the delete
    of the application it names. *)
Lemma membersTrace_ui_split o names t1 line t2 :
  membersTrace o names = t1 ++ EvUI line :: t2 ->
  exists n t2', t2 = EvDelete (deleteAppOpts o n) :: t2' /\
    line = deletingLine n (appNamespace o).
Proof.
  revert t1. induction names as [|n names IH]; intros t1 Heq.
  - by destruct t1.
  - rewrite membersTrace_cons in Heq. cbn in Heq.
    destruct t1 as [|x [|y t1]]; cbn in Heq.
    + injection Heq as <- <-. eauto.
    + discriminate.
    + injection Heq as _ _ Heq. eauto.
Qed.

(** C21: in the trace of [Run], every progress line is immediately
    followed by the delete it announces, that delete runs in the
    namespace [appNamespace o], and the line reads back as the
    application name and namespace of that delete whenever the name has
    no quote. *)
Theorem Run_progress_line_reads_back o s t1 line t2 :
  st_trace (Run o s).2 = st_trace s ++ t1 ++ EvUI line :: t2 ->
  exists cfg t2', t2 = EvDelete cfg :: t2' /\ deleteNs cfg = appNamespace o /\
    (hasQuote (cmdapp.Name (cmdapp.AppFlags cfg)) = false ->
     parseDeletingLine line = Some (cmdapp.Name (cmdapp.AppFlags cfg), deleteNs cfg)).
Proof.
  destruct (Run o s) as [r s'] eqn:Hrun. cbn [snd]. intros Htr.
  destruct (Run_trace_shape o s r s' Hrun) as (t0 & names & Htr' & Ht0).
  rewrite Htr' in Htr. apply app_inv_head in Htr.
  destruct (resolve_prefix_split _ _ _ _ (EvUI line) Ht0 (fun H => H) Htr) as [t1' Hm].
  destruct (membersTrace_ui_split o names t1' line t2 Hm) as (n & t2' & -> & ->).
  exists (deleteAppOpts o n), t2'. split_and!; [done | done |].
  intros Hq. by apply parseDeletingLine_deletingLine.
Qed.
End RunLines.

Local Open Scope string_scope.

Lemma Run_progress_line_reads_back_witness :
  let o := sampleOpts "g1" "" "ns1" in
  exists cfg t2', ([EvDelete (deleteAppOpts o "app-c")] = EvDelete cfg :: t2' /\
    deleteNs cfg = appNamespace o /\
    (hasQuote (cmdapp.Name (cmdapp.AppFlags cfg)) = false ->
     parseDeletingLine (deletingLine "app-c" "ns1")
     = Some (cmdapp.Name (cmdapp.AppFlags cfg), deleteNs cfg)))%list.
Proof.
  intros o. apply (Run_progress_line_reads_back o (start (healthy sampleApps))
                     (resolveTrace o (mkFactorySupportObjs (mkAppsClient "ns1"))
                      ++ memberTrace o "app-a" ++ memberTrace o "app-b")).
  vm_compute. reflexivity.
Defined.
