(* ===== verification/Effects.v ===== *)
(** * What [app-group delete] does to the cluster

    The theorems of [GroupDelete] describe the calls [Run] makes; this
    file turns them into facts about the applications recorded in the
    cluster, for every implementation of the collaborators that
    satisfies [KappEnvLaws]:
    - every delete [Run] attempts targets a member of the group (C19);
    - a successful run removes exactly the applications named like a
      member in the namespace [appNamespace] and nothing else (C12);
    - with a namespace set, a second run finds no member and does
      nothing (C13, the spec's re-run is safe);
    - a failed run leaves the members before the failing one deleted and
      the members after it in place (C14, no rollback);
    - with no namespace at all, the members are listed in every
      namespace but deleted in the empty one: whatever the outcome, no
      application of a named namespace is removed (C15);
    - every error of [Run] is passed up unchanged from the last call
      made (C22).

    [removeAll] is the effect of a sequence of successful deletes;
    [deleteEach_ok_inv] and [deleteEach_err_inv] invert the loop. *)

From S2P Require Import Prelude Flags Env Cluster GroupDelete.

(** The applications left after deleting [names], in order, in [ns]. *)
Definition removeAll (ns : string) (names : list string) (apps : list App) : list App :=
  fold_left (fun acc n => removeApp n ns acc) names apps.

(** The key of a recorded application: its ConfigMap is named after the
    application in its namespace, so no two recorded applications share
    a key. *)
Definition appKey (a : App) : string * string := (app_name a, app_ns a).

(** Well-formed recorded applications: unique keys. *)
Definition wfApps (apps : list App) : Prop := NoDup (map appKey apps).

#[export] Instance wfApps_dec apps : Decision (wfApps apps).
Proof. unfold wfApps. apply _. Defined.

(** ** Membership in filtered application lists *)

Lemma In_removeApp a n ns apps :
  In a (removeApp n ns apps) <-> In a apps /\ ~ (app_name a = n /\ app_ns a = ns).
Proof.
  unfold removeApp. rewrite filter_In, negb_true_iff, andb_false_iff, !String.eqb_neq.
  destruct (decide (app_name a = n)); naive_solver.
Qed.

Lemma In_removeAll a ns names apps :
  In a (removeAll ns names apps) <->
  In a apps /\ ~ (In (app_name a) names /\ app_ns a = ns).
Proof.
  unfold removeAll. revert apps. induction names as [|n names IH]; intros apps; cbn.
  - tauto.
  - rewrite IH, In_removeApp. naive_solver.
Qed.

Lemma In_listed a ns sel apps :
  In a (listed ns sel apps) <->
  In a apps /\ inScope ns a = true /\ selectorMatches sel a = true.
Proof. unfold listed. rewrite filter_In, andb_true_iff. tauto. Qed.

Lemma inScope_ns ns a : ns <> ""%string -> inScope ns a = true <-> app_ns a = ns.
Proof.
  intros Hne. unfold inScope. rewrite orb_true_iff, !String.eqb_eq. tauto.
Qed.

#[export] Hint Rewrite In_removeApp In_removeAll In_listed : kapp_rw.

(** ** Inverting the loop and [Run] *)

Section Inversion.
Context {W DF AF DPF : Type} `{!KappEnv W DF AF}.
Implicit Types (o : DeleteOptions DF AF DPF) (s : St W DF AF).

Lemma deleteEach_ok_inv o apps s s' :
  deleteEach o apps s = (Ok tt, s') ->
  deletesOk o (map app_name apps) (st_world s) (st_world s').
Proof.
  revert s. induction apps as [|a apps IH]; intros [w tr] Hrun.
  - injection Hrun as <-. constructor.
  - cbn [deleteEach] in Hrun. unfold bind at 1 in Hrun. rewrite deleteApp_eq in Hrun.
    cbn [st_world] in *. destruct (AppDeleteRun _ w) as [[[]|e] w1] eqn:Hd; [|done].
    econstructor; [exact Hd | exact (IH _ Hrun)].
Qed.

Lemma deleteEach_err_inv o apps s e s' :
  deleteEach o apps s = (Err e, s') ->
  exists pre b post w1, apps = pre ++ b :: post /\
    deletesOk o (map app_name pre) (st_world s) w1 /\
    AppDeleteRun (deleteAppOpts o (app_name b)) w1 = (Err e, st_world s').
Proof.
  revert s. induction apps as [|a apps IH]; intros [w tr] Hrun; [done|].
  cbn [deleteEach] in Hrun. unfold bind at 1 in Hrun. rewrite deleteApp_eq in Hrun.
  cbn [st_world] in *. destruct (AppDeleteRun _ w) as [[[]|e'] w1] eqn:Hd.
  - destruct (IH _ Hrun) as (pre & b & post & w2 & -> & Hok & Hb).
    exists (a :: pre), b, post, w2. split_and!; [done | econstructor; eauto | done].
  - injection Hrun as -> <-. exists [], a, apps, w. split_and!; [done | constructor | done].
Qed.

(** A successful [Run] resolved the group and deleted every member. *)
Lemma Run_ok_inv o s s' :
  Run o s = (Ok tt, s') ->
  String.length (Name (AppGroupFlags o)) <> 0 /\
  exists sup apps,
    FactoryClients (st_world s) (NamespaceFlags (AppGroupFlags o))
      (AppNamespace (AppGroupFlags o)) = Ok sup /\
    AppsList (st_world s) (Apps sup) (groupSelector (Name (AppGroupFlags o))) = Ok apps /\
    deletesOk o (map app_name apps) (st_world s) (st_world s').
Proof.
  intros Hrun.
  destruct (Run_cases o s _ _ Hrun)
    as [(_ & ? & _) | [(e & _ & _ & ? & _) | [(sup & e & _ & _ & _ & ? & _) |
        (sup & apps & Hn & Hf & Hl & Hloop)]]]; try discriminate.
  split; [done|]. exists sup, apps.
  split_and!; [done | done | exact (deleteEach_ok_inv _ _ _ _ Hloop)].
Qed.
End Inversion.

Section RunErrors.
Context {W DF AF DPF : Type} `{!KappEnv W DF AF}.
Implicit Types (o : DeleteOptions DF AF DPF) (s : St W DF AF).


(** C22: every error [Run] returns is passed up unchanged from where it
    arose, and the trace ends with the call that returned it: the
    empty-name error with no call made; the error of [FactoryClients];
    the error of [Apps.List]; or the error of the delete of a member,
    made last. *)
Theorem Run_error_source o s e :
  (Run o s).1 = Err e ->
  (Name (AppGroupFlags o) = ""%string /\ e = errEmptyGroupName /\ (Run o s).2 = s)
  \/ (FactoryClients (st_world s) (NamespaceFlags (AppGroupFlags o))
        (AppNamespace (AppGroupFlags o)) = Err e /\
      st_trace (Run o s).2 = st_trace s ++
        [factoryEvent o])
  \/ (exists sup,
      FactoryClients (st_world s) (NamespaceFlags (AppGroupFlags o))
        (AppNamespace (AppGroupFlags o)) = Ok sup /\
      AppsList (st_world s) (Apps sup) (groupSelector (Name (AppGroupFlags o))) = Err e /\
      st_trace (Run o s).2 = st_trace s ++ resolveTrace o sup)
  \/ (exists n w1 t,
      AppDeleteRun (deleteAppOpts o n) w1 = (Err e, st_world (Run o s).2) /\
      st_trace (Run o s).2 = st_trace s ++ t ++ [EvDelete (deleteAppOpts o n)]).
Proof.
  destruct (Run o s) as [r s'] eqn:Hrun. cbn [fst snd]. intros ->.
  destruct (Run_cases o s _ _ Hrun)
    as [(Hn & [= ->] & ->) | [(e' & _ & Hf & [= <-] & ->) | [(sup & e' & _ & Hf & Hl & [= <-] & ->) |
        (sup & apps & _ & Hf & Hl & Hloop)]]].
  - by left.
  - by right; left.
  - right; right; left. eauto.
  - right; right; right.
    destruct (deleteEach_err_inv _ _ _ _ _ Hloop) as (pre & b & post & w1 & -> & Hok & Hb).
    rewrite (deleteEach_fail _ _ _ _ _ _ _ _ Hok Hb) in Hloop. injection Hloop as <-.
    exists (app_name b), w1,
      (resolveTrace o sup ++ membersTrace o (map app_name pre) ++ [EvUI (deletingLine (app_name b) (appNamespace o))]).
    split; [done|]. cbn [st_trace].
    rewrite map_app, membersTrace_app, <- !app_assoc. reflexivity.
Qed.
End RunErrors.

(** ** Against the laws of the collaborators *)

Section Effects.
Context {W DF AF DPF : Type} `{!KappEnv W DF AF} `{!KappEnvLaws W DF AF}.
Implicit Types (o : DeleteOptions DF AF DPF) (s : St W DF AF).

(** The members [Apps.List] returns for the group. *)
Definition groupMembers o (w : W) : list App :=
  listed (appNamespace o) (groupSelector (Name (AppGroupFlags o))) (env_apps w).

Lemma group_listing o w sup apps :
  FactoryClients w (NamespaceFlags (AppGroupFlags o)) (AppNamespace (AppGroupFlags o)) = Ok sup ->
  AppsList w (Apps sup) (groupSelector (Name (AppGroupFlags o))) = Ok apps ->
  apps = groupMembers o w.
Proof.
  intros Hf Hl. apply apps_list_spec in Hl as ->. apply factory_clients_scope in Hf.
  unfold groupMembers. by rewrite Hf.
Qed.

Lemma deletesOk_apps o names w w' :
  deletesOk o names w w' -> env_apps w' = removeAll (appNamespace o) names (env_apps w).
Proof.
  induction 1 as [|n names w w1 w2 Hd _ IH]; [done|].
  cbn. rewrite IH. f_equal. exact (app_delete_ok _ _ _ Hd).
Qed.

Lemma deletesOk_shrinks o names w w' a :
  deletesOk o names w w' -> In a (env_apps w') -> In a (env_apps w).
Proof.
  intros Hok. rewrite (deletesOk_apps _ _ _ _ Hok). autorewrite with kapp_rw. tauto.
Qed.

(** After a successful run the group has no member left in a set
    namespace. *)
Lemma groupMembers_after_success o s s' :
  appNamespace o <> ""%string -> Run o s = (Ok tt, s') -> groupMembers o (st_world s') = [].
Proof.
  intros Hns Hrun. destruct (Run_ok_inv o s s' Hrun) as (_ & sup & apps & Hf & Hl & Hok).
  pose proof (group_listing _ _ _ _ Hf Hl) as ->.
  apply elem_of_nil_inv. intros a Ha%list_elem_of_In.
  unfold groupMembers in Ha. rewrite (deletesOk_apps _ _ _ _ Hok) in Ha.
  autorewrite with kapp_rw in Ha.
  destruct Ha as [[Hin Hnot] [Hsc Hsel]]. apply Hnot. split.
  - apply in_map. unfold groupMembers. rewrite In_listed. done.
  - by apply inScope_ns.
Qed.

(** A member of the group is in the namespace [appNamespace], when it is
    set. *)
Lemma groupMembers_ns o w a :
  appNamespace o <> ""%string -> In a (groupMembers o w) ->
  In a (env_apps w) /\ app_ns a = appNamespace o.
Proof.
  intros Hns Ha. unfold groupMembers in Ha. rewrite In_listed in Ha.
  destruct Ha as (Hin & Hsc & _). split; [done | by apply inScope_ns].
Qed.

Lemma selectorMatches_group name a :
  selectorMatches (groupSelector name) a = true <->
  app_labels a !! appGroupAnnKey = Some name.
Proof.
  unfold selectorMatches, groupSelector. rewrite bool_decide_eq_true.
  apply map_singleton_subseteq_l.
Qed.

Lemma In_prefix {A} (x : A) l1 l2 : l1 `prefix_of` l2 -> In x l1 -> In x l2.
Proof. intros [k ->] Hx. apply in_or_app. by left. Qed.

(** In the empty namespace, a delete never removes an application
    recorded in a named namespace, whether it succeeds or not. *)
Lemma deleteApp_keeps_named o n w r w' a :
  appNamespace o = ""%string ->
  AppDeleteRun (deleteAppOpts o n) w = (r, w') ->
  In a (env_apps w) -> app_ns a <> ""%string -> In a (env_apps w').
Proof.
  intros Hns Hd Ha Hans. pose proof (app_delete_frame _ _ _ _ Hd) as Hfr.
  rewrite deleteNs_deleteAppOpts, Hns in Hfr. cbn [cmdapp.Name cmdapp.AppFlags deleteAppOpts] in Hfr.
  assert (Hkeep : In a (removeApp n "" (env_apps w))) by (rewrite In_removeApp; tauto).
  rewrite <- Hfr, In_removeApp in Hkeep. by destruct Hkeep.
Qed.

Lemma deleteEach_keeps_named o apps s r s' a :
  appNamespace o = ""%string -> deleteEach o apps s = (r, s') ->
  In a (env_apps (st_world s)) -> app_ns a <> ""%string -> In a (env_apps (st_world s')).
Proof.
  intros Hns. revert s. induction apps as [|b apps IH]; intros [w tr] Hrun Ha Hans.
  - by injection Hrun as _ <-.
  - cbn [deleteEach] in Hrun. unfold bind at 1 in Hrun. rewrite deleteApp_eq in Hrun.
    cbn [st_world] in *. destruct (AppDeleteRun _ w) as [[[]|e] w1] eqn:Hd.
    + apply (IH _ Hrun); [|done]. exact (deleteApp_keeps_named _ _ _ _ _ _ Hns Hd Ha Hans).
    + injection Hrun as _ <-. exact (deleteApp_keeps_named _ _ _ _ _ _ Hns Hd Ha Hans).
Qed.

(** C15: with neither a namespace nor an app namespace, [Apps.List] is
    scoped to every namespace, but [deleteApp] builds each delete with
    the group's (empty) namespace flags: whatever the outcome of the
    run, every application recorded in a named namespace, group member
    or not, is still recorded after it. *)
Theorem Run_all_namespaces_keeps_members o s a :
  appNamespace o = ""%string ->
  In a (env_apps (st_world s)) -> app_ns a <> ""%string ->
  In a (env_apps (st_world (Run o s).2)).
Proof.
  intros Hns Ha Hans. destruct (Run o s) as [r s'] eqn:Hrun. cbn [snd].
  destruct (Run_cases o s r s' Hrun)
    as [(_ & _ & ->) | [(e & _ & _ & _ & ->) | [(sup & e & _ & _ & _ & _ & ->) |
        (sup & apps & _ & _ & _ & Hloop)]]]; try done.
  exact (deleteEach_keeps_named _ _ _ _ _ _ Hns Hloop Ha Hans).
Qed.

(** C19: every delete [Run] attempts targets a member of the group, by
    its name, in the namespace [appNamespace]: nothing outside the group
    is ever deleted. *)
Theorem Run_deletes_only_members o s :
  exists t, st_trace (Run o s).2 = st_trace s ++ t /\
    forall cfg, In (EvDelete cfg) t ->
      exists a, In a (groupMembers o (st_world s)) /\
        cmdapp.Name (cmdapp.AppFlags cfg) = app_name a /\ deleteNs cfg = appNamespace o.
Proof.
  destruct (Run o s) as [r s'] eqn:Hrun. cbn [snd].
  destruct (Run_cases o s r s' Hrun)
    as [(_ & _ & ->) | [(e & _ & _ & _ & ->) | [(sup & e & _ & _ & _ & _ & ->) |
        (sup & apps & _ & Hf & Hl & Hloop)]]].
  - exists []. by rewrite app_nil_r.
  - exists [factoryEvent o].
    split; [done|]. intros cfg [Hc|[]]. discriminate.
  - exists (resolveTrace o sup). split; [done|]. intros cfg [Hc|[Hc|[]]]; discriminate.
  - apply deleteEach_trace in Hloop as (names & Hpre & Htr & _). cbn [st_trace] in Htr.
    exists (resolveTrace o sup ++ membersTrace o names). split; [by rewrite Htr, app_assoc|].
    intros cfg [[Hc|[Hc|[]]]|Hin]%in_app_or; try discriminate.
    apply membersTrace_delete in Hin as (n & Hn & ->).
    apply (In_prefix n) in Hpre; [|done]. apply in_map_iff in Hpre as (a & <- & Ha).
    exists a. rewrite <- (group_listing _ _ _ _ Hf Hl). split_and!; [done | done |].
    apply deleteNs_deleteAppOpts.
Qed.

(** C12: a successful [Run] removes from the cluster exactly the
    applications that bear the name of a member of the group in the
    namespace [appNamespace], and keeps every other application. *)
Theorem Run_success_exact_effect o s :
  (Run o s).1 = Ok tt ->
  forall a, In a (env_apps (st_world (Run o s).2)) <->
    In a (env_apps (st_world s)) /\
    ~ (In (app_name a) (map app_name (groupMembers o (st_world s))) /\
       app_ns a = appNamespace o).
Proof.
  destruct (Run o s) as [[[]|e] s'] eqn:Hrun; cbn; [intros _ a | discriminate].
  destruct (Run_ok_inv o s s' Hrun) as (_ & sup & apps & Hf & Hl & Hok).
  rewrite <- (group_listing _ _ _ _ Hf Hl), (deletesOk_apps _ _ _ _ Hok). apply In_removeAll.
Qed.

(** C13: re-running after a successful run, in a set namespace, lists no
    member and succeeds with no delete and an unchanged cluster, unless
    building the clients or listing fails. *)
Theorem Run_rerun_noop o s sup l :
  appNamespace o <> ""%string ->
  (Run o s).1 = Ok tt ->
  FactoryClients (st_world (Run o s).2) (NamespaceFlags (AppGroupFlags o))
    (AppNamespace (AppGroupFlags o)) = Ok sup ->
  AppsList (st_world (Run o s).2) (Apps sup) (groupSelector (Name (AppGroupFlags o))) = Ok l ->
  l = [] /\
  Run o (Run o s).2 =
  (Ok tt, mkSt (st_world (Run o s).2) (st_trace (Run o s).2 ++ resolveTrace o sup)).
Proof.
  destruct (Run o s) as [[[]|e] s'] eqn:Hrun; cbn; [intros Hns _ Hf Hl | discriminate].
  pose proof (groupMembers_after_success o s s' Hns Hrun) as Hnone.
  rewrite <- (group_listing _ _ _ _ Hf Hl) in Hnone. subst l. split; [done|].
  destruct (Run_ok_inv o s s' Hrun) as [Hn _].
  by rewrite (Run_resolved o s' sup [] Hn Hf Hl).
Qed.

(** C14: no rollback. When the run fails at member [b] after deleting
    [pre], the members of [pre] are gone and every later member whose
    name is not that of [pre] or [b] is still recorded. *)
Theorem Run_failure_partial o s sup pre b post w1 e w2 :
  appNamespace o <> ""%string ->
  String.length (Name (AppGroupFlags o)) <> 0 ->
  FactoryClients (st_world s) (NamespaceFlags (AppGroupFlags o))
    (AppNamespace (AppGroupFlags o)) = Ok sup ->
  AppsList (st_world s) (Apps sup) (groupSelector (Name (AppGroupFlags o)))
    = Ok (pre ++ b :: post) ->
  deletesOk o (map app_name pre) (st_world s) w1 ->
  AppDeleteRun (deleteAppOpts o (app_name b)) w1 = (Err e, w2) ->
  (Run o s).1 = Err e /\ st_world (Run o s).2 = w2 /\
  (forall a, In a pre -> ~ In a (env_apps w2)) /\
  (forall a, In a post -> ~ In (app_name a) (map app_name (pre ++ [b])) ->
             In a (env_apps w2)).
Proof.
  intros Hns Hn Hf Hl Hok Hb.
  pose proof (group_listing _ _ _ _ Hf Hl) as Hmem.
  rewrite (Run_resolved o s sup _ Hn Hf Hl),
    (deleteEach_fail o pre b post (mkSt (st_world s) (st_trace s ++ resolveTrace o sup))
       w1 e w2 Hok Hb).
  split_and!; [done | done | |].
  - intros a Ha Hin. apply (app_delete_shrinks _ _ _ _ a Hb) in Hin.
    rewrite (deletesOk_apps _ _ _ _ Hok), In_removeAll in Hin. apply Hin. split.
    + by apply in_map.
    + apply (groupMembers_ns o (st_world s)); [done|]. rewrite <- Hmem. apply in_or_app. by left.
  - intros a Ha Hname. rewrite map_app in Hname. cbn in Hname.
    destruct (groupMembers_ns o (st_world s) a Hns) as [Hin Hans]; [rewrite <- Hmem; apply in_or_app; by right; right|].
    assert (Hw1 : In a (env_apps w1)).
    { rewrite (deletesOk_apps _ _ _ _ Hok), In_removeAll. split; [done|].
      intros [? _]. apply Hname. apply in_or_app. by left. }
    assert (Hkeep : In a (removeApp (app_name b) (appNamespace o) (env_apps w1))).
    { rewrite In_removeApp. split; [done|]. intros [Heq _]. apply Hname.
      apply in_or_app. right. left. done. }
    pose proof (app_delete_frame _ _ _ _ Hb) as Hfr.
    rewrite deleteNs_deleteAppOpts in Hfr. cbn [cmdapp.Name cmdapp.AppFlags deleteAppOpts] in Hfr.
    rewrite <- Hfr, In_removeApp in Hkeep. by destruct Hkeep.
Qed.
End Effects.

Local Open Scope string_scope.

(** ** Witnesses at concrete clusters *)

(** The view [env_apps] of the laws, at the sample cluster. *)
Local Abbreviation clusterApps := (@env_apps Cluster string bool _ _).

Lemma Run_success_exact_effect_witness :
  let o := sampleOpts "g1" "" "ns1" in
  let s := start (healthy sampleApps) in
  (In appB (clusterApps (st_world (Run o s).2)) <->
   In appB (clusterApps (st_world s)) /\
   ~ (In (app_name appB) (map app_name (groupMembers o (st_world s))) /\
      app_ns appB = appNamespace o)) /\
  (In appX (clusterApps (st_world (Run o s).2)) <->
   In appX (clusterApps (st_world s)) /\
   ~ (In (app_name appX) (map app_name (groupMembers o (st_world s))) /\
      app_ns appX = appNamespace o)).
Proof.
  intros o s. assert (Hok : (Run o s).1 = Ok tt) by (vm_compute; reflexivity).
  exact (conj (Run_success_exact_effect o s Hok appB) (Run_success_exact_effect o s Hok appX)).
Defined.

Lemma Run_rerun_noop_witness :
  let o := sampleOpts "g1" "" "ns1" in
  let s := start (healthy sampleApps) in
  let sup := mkFactorySupportObjs (mkAppsClient "ns1") in
  @nil App = [] /\
  Run o (Run o s).2 =
  (Ok tt, mkSt (st_world (Run o s).2) (st_trace (Run o s).2 ++ resolveTrace o sup)%list).
Proof.
  intros o s sup. apply (Run_rerun_noop o s sup []).
  - discriminate.
  - vm_compute. reflexivity.
  - vm_compute. reflexivity.
  - vm_compute. reflexivity.
Defined.

Lemma Run_failure_partial_witness :
  let o := sampleOpts "g1" "" "ns1" in
  let c := failingOn "app-b" (Errorf "timed out") sampleApps in
  let w2 := withApps c (removeApp "app-a" "ns1" sampleApps) in
  (Run o (start c)).1 = Err (Errorf "timed out") /\ st_world (Run o (start c)).2 = w2 /\
  (forall a, In a [appA] -> ~ In a (clusterApps w2)) /\
  (forall a, In a [appC] -> ~ In (app_name a) (map app_name ([appA] ++ [appB])) ->
             In a (clusterApps w2)).
Proof.
  intros o c w2. eapply (Run_failure_partial o (start c) _ [appA] appB [appC]).
  - discriminate.
  - cbn. lia.
  - reflexivity.
  - vm_compute. reflexivity.
  - econstructor; [reflexivity | constructor].
  - reflexivity.
Defined.

Lemma Run_error_source_witness :
  let o := sampleOpts "g1" "" "ns1" in
  let s := start (failingOn "app-b" (Errorf "timed out") sampleApps) in
  let e := Errorf "timed out" in
  (Name (AppGroupFlags o) = "" /\ e = errEmptyGroupName /\ (Run o s).2 = s)
  \/ (@FactoryClients Cluster string bool _ (st_world s) (NamespaceFlags (AppGroupFlags o))
        (AppNamespace (AppGroupFlags o)) = Err e /\
      st_trace (Run o s).2 = (st_trace s ++
        [factoryEvent o])%list)
  \/ (exists sup,
      @FactoryClients Cluster string bool _ (st_world s) (NamespaceFlags (AppGroupFlags o))
        (AppNamespace (AppGroupFlags o)) = Ok sup /\
      @AppsList Cluster string bool _ (st_world s) (Apps sup) (groupSelector (Name (AppGroupFlags o))) = Err e /\
      st_trace (Run o s).2 = (st_trace s ++ resolveTrace o sup)%list)
  \/ (exists n w1 t,
      AppDeleteRun (deleteAppOpts o n) w1 = (Err e, st_world (Run o s).2) /\
      st_trace (Run o s).2 = (st_trace s ++ t ++ [EvDelete (deleteAppOpts o n)])%list).
Proof.
  intros o s e. apply Run_error_source. vm_compute. reflexivity.
Defined.

Lemma Run_all_namespaces_keeps_members_witness :
  let o := sampleOpts "g1" "" "" in
  let s := start (healthy sampleApps) in
  appNamespace o = "" /\ In appD (clusterApps (st_world s)) /\ app_ns appD <> "" /\
  In appD (clusterApps (st_world (Run o s).2)).
Proof.
  intros o s.
  assert (Hns : appNamespace o = "") by reflexivity.
  assert (Ha : In appD (clusterApps (st_world s))) by (cbn; tauto).
  assert (Hans : app_ns appD <> "") by discriminate.
  split_and!; [exact Hns | exact Ha | exact Hans |].
  exact (Run_all_namespaces_keeps_members o s appD Hns Ha Hans).
Defined.
