(* ===== verification/ClusterRun.v ===== *)
(** * [Run] on the concrete cluster, and the order of the registry

    On the cluster of [Cluster], [Run] has a closed form. It succeeds
    exactly when the group name is not empty, building the clients and
    listing do not fail, and no member of the group has a delete set to
    fail. It then leaves the registry with every member's name removed
    from the namespace [appNamespace] ([cluster_Run_succeeds_iff]).

    The spec leaves the order in which the registry lists the members
    open (sections 4.1 and 9). [Run_registry_order_irrelevant] shows
    that nothing but the choice of error depends on it: a registry
    holding the same applications in another order gives a run that
    succeeds exactly when the first one does, and then leaves the same
    applications. The proof is setoid rewriting with the [Proper]
    instances of [List.filter], [map] and [Forall] for permutations. *)

From S2P Require Import Prelude Flags Env Cluster GroupDelete Effects.

(** The effect of a sequence of deletes is a filter. *)
Lemma removeAll_filter ns names apps :
  removeAll ns names apps =
  List.filter (fun a => negb (bool_decide (app_name a ∈ names) && String.eqb (app_ns a) ns)) apps.
Proof.
  unfold removeAll. revert apps. induction names as [|n names IH]; intros apps; cbn.
  - induction apps as [|a apps IHa]; cbn; [done|]. by rewrite <- IHa.
  - rewrite IH. unfold removeApp. rewrite filter_filter_std.
    apply filter_ext. intros a.
    destruct (String.eqb_spec (app_name a) n) as [->|Hn];
      destruct (String.eqb (app_ns a) ns); cbn [andb negb];
      repeat case_bool_decide; try done; set_solver.
Qed.

Lemma withApps_self c : withApps c (cl_apps c) = c.
Proof. by destruct c. Qed.

Lemma withApps_withApps c apps apps' : withApps (withApps c apps) apps' = withApps c apps'.
Proof. reflexivity. Qed.

Section ClusterRun.
Context {DF AF DPF : Type}.
Implicit Types (o : DeleteOptions DF AF DPF) (c : Cluster).

(** The members of the group in the registry of [c]. *)
Definition clusterMembers o c : list App :=
  listed (appNamespace o) (groupSelector (Name (AppGroupFlags o))) (cl_apps c).

(** No member of the group has a delete set to fail. *)
Definition membersDeletable o c : Prop :=
  Forall (fun a => cl_delete_err c (app_name a) (appNamespace o) = None) (clusterMembers o c).

Lemma resolveNs_appNamespace o :
  resolveNs (NamespaceFlags (AppGroupFlags o)) (AppNamespace (AppGroupFlags o)) = appNamespace o.
Proof. reflexivity. Qed.

Lemma cluster_deletesOk o names c :
  Forall (fun n => cl_delete_err c n (appNamespace o) = None) names ->
  deletesOk o names c (withApps c (removeAll (appNamespace o) names (cl_apps c))).
Proof.
  revert c. induction names as [|n names IH]; intros c Hall.
  - rewrite withApps_self. constructor.
  - apply Forall_cons in Hall as [Hn Hall].
    eapply deletesOk_cons.
    + cbn. unfold clusterDelete. rewrite deleteNs_deleteAppOpts. cbn. by rewrite Hn.
    + exact (IH (withApps c (removeApp n (appNamespace o) (cl_apps c))) Hall).
Qed.

Lemma cluster_deletesOk_inv o names c c' :
  deletesOk o names c c' -> Forall (fun n => cl_delete_err c n (appNamespace o) = None) names.
Proof.
  induction 1 as [|n names w w1 w2 Hd _ IH]; [constructor|].
  cbn in Hd. unfold clusterDelete in Hd. rewrite deleteNs_deleteAppOpts in Hd. cbn in Hd.
  destruct (cl_delete_err w n (appNamespace o)) eqn:Hn; [discriminate|].
  injection Hd as <-. by constructor.
Qed.

(** The deletes of a list of names end in one cluster. *)
Lemma deletesOk_det o names c c1 c2 :
  deletesOk o names c c1 -> deletesOk o names c c2 -> c1 = c2.
Proof.
  intros H1. revert c2. induction H1 as [|n names w w1 w2 Hd _ IH]; intros c2 H2;
    inversion H2 as [|? ? ? w1' ? Hd' Hrest]; subst; [done|].
  rewrite Hd in Hd'. injection Hd' as <-. by apply IH.
Qed.

Lemma cluster_Run_resolved o c sup apps :
  FactoryClients (DiffFlagsT:=DF) (ApplyFlagsT:=AF) c (NamespaceFlags (AppGroupFlags o))
    (AppNamespace (AppGroupFlags o)) = Ok sup ->
  AppsList (DiffFlagsT:=DF) (ApplyFlagsT:=AF) c (Apps sup) (groupSelector (Name (AppGroupFlags o)))
    = Ok apps ->
  cl_factory_err c = None /\ cl_list_err c = None /\ apps = clusterMembers o c.
Proof.
  cbn. unfold clusterFactoryClients, clusterAppsList.
  destruct (cl_factory_err c); [discriminate|]. intros [= <-].
  destruct (cl_list_err c); [discriminate|]. by intros [= <-].
Qed.

Lemma cluster_Run_ok o c :
  (Run o (mkSt c [])).1 = Ok tt <->
  String.length (Name (AppGroupFlags o)) <> 0 /\ cl_factory_err c = None /\
  cl_list_err c = None /\ membersDeletable o c.
Proof.
  split.
  - destruct (Run o (mkSt c [])) as [r s'] eqn:Hrun. cbn [fst]. intros ->.
    destruct (Run_ok_inv o _ _ Hrun) as (Hname & sup & apps & Hf & Hl & Hok).
    destruct (cluster_Run_resolved o c sup apps Hf Hl) as (Hfe & Hle & ->).
    split_and!; try done. apply cluster_deletesOk_inv in Hok.
    unfold membersDeletable. by apply Forall_map in Hok.
  - intros (Hname & Hfe & Hle & Hdel).
    rewrite (Run_resolved o (mkSt c []) (mkFactorySupportObjs (mkAppsClient (appNamespace o)))
               (clusterMembers o c) Hname)
      by (cbn; unfold clusterFactoryClients, clusterAppsList; by rewrite ?Hfe, ?Hle).
    rewrite (deleteEach_ok o (clusterMembers o c) _
               (withApps c (removeAll (appNamespace o) (map app_name (clusterMembers o c)) (cl_apps c)))).
    + reflexivity.
    + apply cluster_deletesOk. by apply Forall_map.
Qed.

Lemma cluster_Run_world o c :
  (Run o (mkSt c [])).1 = Ok tt ->
  st_world (Run o (mkSt c [])).2 =
  withApps c (removeAll (appNamespace o) (map app_name (clusterMembers o c)) (cl_apps c)).
Proof.
  destruct (Run o (mkSt c [])) as [r s'] eqn:Hrun. cbn [fst snd]. intros ->.
  destruct (Run_ok_inv o _ _ Hrun) as (Hname & sup & apps & Hf & Hl & Hok).
  destruct (cluster_Run_resolved o c sup apps Hf Hl) as (Hfe & Hle & ->).
  apply (deletesOk_det o _ c _ _ Hok).
  apply cluster_deletesOk. apply cluster_deletesOk_inv in Hok. exact Hok.
Qed.

Lemma clusterMembers_perm o c apps' :
  apps' ≡ₚ cl_apps c -> clusterMembers o (withApps c apps') ≡ₚ clusterMembers o c.
Proof. intros Hp. unfold clusterMembers, listed. cbn [withApps cl_apps]. by rewrite Hp. Qed.
End ClusterRun.

Section ClusterRunTheorems.
Context {DF AF DPF : Type}.
Implicit Types (o : DeleteOptions DF AF DPF) (c : Cluster).

(** C24: on the concrete cluster, [Run] succeeds exactly when the group
    name is not empty, building the clients and listing do not fail,
    and no member's delete is set to fail; it then leaves the registry
    with each member's name removed from the namespace [appNamespace]. *)
Theorem cluster_Run_succeeds_iff o c :
  ((Run o (mkSt c [])).1 = Ok tt <->
   String.length (Name (AppGroupFlags o)) <> 0 /\ cl_factory_err c = None /\
   cl_list_err c = None /\ membersDeletable o c) /\
  ((Run o (mkSt c [])).1 = Ok tt ->
   st_world (Run o (mkSt c [])).2 =
   withApps c (removeAll (appNamespace o) (map app_name (clusterMembers o c)) (cl_apps c))).
Proof. split; [apply cluster_Run_ok | apply cluster_Run_world]. Qed.

(** C25: the order in which the registry lists the applications does
    not matter to a successful run: with the same applications in
    another order, [Run] succeeds exactly when it succeeds on the
    original registry, and it then leaves the same applications, up to
    their order. *)
Theorem Run_registry_order_irrelevant o c apps' :
  apps' ≡ₚ cl_apps c ->
  ((Run o (mkSt (withApps c apps') [])).1 = Ok tt <-> (Run o (mkSt c [])).1 = Ok tt) /\
  ((Run o (mkSt c [])).1 = Ok tt ->
   cl_apps (st_world (Run o (mkSt (withApps c apps') [])).2)
   ≡ₚ cl_apps (st_world (Run o (mkSt c [])).2)).
Proof.
  intros Hp. pose proof (clusterMembers_perm o c apps' Hp) as Hm.
  assert (Hd : membersDeletable o (withApps c apps') <-> membersDeletable o c).
  { unfold membersDeletable. change (cl_delete_err (withApps c apps')) with (cl_delete_err c).
    by rewrite Hm. }
  assert (Hok : (Run o (mkSt (withApps c apps') [])).1 = Ok tt <-> (Run o (mkSt c [])).1 = Ok tt).
  { rewrite !cluster_Run_ok, Hd. reflexivity. }
  split; [exact Hok|]. intros Hc.
  rewrite !cluster_Run_world by (first [exact Hc | apply Hok, Hc]). cbn [withApps cl_apps].
  rewrite !removeAll_filter. etrans; [by apply filter_Permutation_proper|].
  erewrite filter_ext; [reflexivity|]. intros a. cbv beta. do 2 f_equal.
  apply bool_decide_ext. by rewrite Hm.
Qed.
End ClusterRunTheorems.

(** ** Witnesses at concrete clusters *)

Local Open Scope string_scope.

Lemma cluster_Run_succeeds_iff_witness :
  let o := sampleOpts "g1" "" "ns1" in
  let c := failingOn "app-x" (Errorf "forbidden") sampleApps in
  (Run o (start c)).1 = Ok tt /\
  st_world (Run o (start c)).2 =
  withApps c (removeAll "ns1" ["app-a"; "app-b"; "app-c"] (cl_apps c)).
Proof.
  intros o c. destruct (cluster_Run_succeeds_iff o c) as [Hiff Hworld].
  assert (Hok : (Run o (start c)).1 = Ok tt).
  { apply Hiff. split_and!; [cbn; lia | reflexivity | reflexivity |].
    unfold membersDeletable. vm_compute. repeat constructor. }
  split; [exact Hok | exact (Hworld Hok)].
Defined.

Lemma Run_registry_order_irrelevant_witness :
  let o := sampleOpts "g1" "" "ns1" in
  let c := healthy sampleApps in
  rev sampleApps ≡ₚ cl_apps c /\
  ((Run o (start (withApps c (rev sampleApps)))).1 = Ok tt <-> (Run o (start c)).1 = Ok tt) /\
  ((Run o (start c)).1 = Ok tt ->
   cl_apps (st_world (Run o (start (withApps c (rev sampleApps)))).2)
   ≡ₚ cl_apps (st_world (Run o (start c)).2)).
Proof.
  intros o c. assert (Hp : rev sampleApps ≡ₚ cl_apps c).
  { apply (bool_decide_unpack _). vm_compute. reflexivity. }
  split; [exact Hp | exact (Run_registry_order_irrelevant o c _ Hp)].
Defined.
