(* ===== verification/Calls.v ===== *)
(** * How many calls [Run] makes, and to which applications

    [deleteCalls t] is the list of the per-application delete calls in a
    trace, in order. Three groups of facts about the calls of [Run]:
    - targets ([Run_success_deletes_group]): a successful run deletes
      the applications labelled with the group in the namespace's
      scope, one call each, in registry order;
    - counts ([Run_call_counts]): once the group is resolved to [apps],
      [Run] makes at most [length apps] delete calls, each with its
      progress line, after the two resolution calls; when it succeeds,
      exactly [length apps] (the spec's "invokes the delete workflow
      exactly twice" for a group of two);
    - distinct targets ([Run_deletes_distinct]): with a namespace set and
      recorded applications whose (name, namespace) keys are unique, no
      application is deleted twice in a run. With the empty namespace
      this fails: members of different namespaces may share a name, and
      each delete then targets the same application of the empty
      namespace (see the finding of [Effects]). *)

From S2P Require Import Prelude Flags Env Cluster GroupDelete Effects ClusterRun.

Section DeleteCalls.
Context {DF AF : Type}.

(** The delete calls of a trace, in order. *)
Definition deleteCalls (t : list (event DF AF)) : list (cmdapp.DeleteOptions DF AF) :=
  omap (fun ev => match ev with EvDelete cfg => Some cfg | _ => None end) t.

Lemma deleteCalls_app t1 t2 : deleteCalls (t1 ++ t2) = deleteCalls t1 ++ deleteCalls t2.
Proof. apply omap_app. Qed.
End DeleteCalls.

Section RunCalls.
Context {W DF AF DPF : Type} `{!KappEnv W DF AF}.
Implicit Types (o : DeleteOptions DF AF DPF) (s : St W DF AF).

Lemma deleteCalls_resolveTrace o sup : deleteCalls (resolveTrace o sup) = [].
Proof. reflexivity. Qed.

Lemma deleteCalls_membersTrace o names :
  deleteCalls (membersTrace o names) = map (deleteAppOpts o) names.
Proof.
  induction names as [|n names IH]; [done|].
  rewrite membersTrace_cons, deleteCalls_app, IH. reflexivity.
Qed.

Lemma length_membersTrace o names : length (membersTrace o names) = 2 * length names.
Proof.
  induction names as [|n names IH]; [done|].
  rewrite membersTrace_cons, length_app, IH. cbn. lia.
Qed.

(** The names the deletes of the loop target are the loop's names. *)
Lemma deleteCalls_names o names :
  map (fun cfg => cmdapp.Name (cmdapp.AppFlags cfg)) (deleteCalls (membersTrace o names)) = names.
Proof. rewrite deleteCalls_membersTrace, map_map. apply map_id. Qed.

(** C26: once the group is resolved to [apps], [Run] adds the two
    resolution calls and a progress line and a delete call for each of
    at most [length apps] members; when it succeeds it makes exactly
    [length apps] delete calls. *)
Theorem Run_call_counts o s sup apps :
  String.length (Name (AppGroupFlags o)) <> 0 ->
  FactoryClients (st_world s) (NamespaceFlags (AppGroupFlags o))
    (AppNamespace (AppGroupFlags o)) = Ok sup ->
  AppsList (st_world s) (Apps sup) (groupSelector (Name (AppGroupFlags o))) = Ok apps ->
  exists t, st_trace (Run o s).2 = st_trace s ++ t /\
    length (deleteCalls t) <= length apps /\
    length t = 2 + 2 * length (deleteCalls t) /\
    ((Run o s).1 = Ok tt -> length (deleteCalls t) = length apps).
Proof.
  intros Hn Hf Hl. rewrite (Run_resolved o s sup apps Hn Hf Hl).
  destruct (deleteEach o apps _) as [r s'] eqn:Hloop. cbn [fst snd].
  destruct (deleteEach_trace o apps _ r s' Hloop) as (names & Hpre & Htr & Hok).
  cbn [st_trace] in Htr.
  exists (resolveTrace o sup ++ membersTrace o names).
  rewrite deleteCalls_app, deleteCalls_resolveTrace, deleteCalls_membersTrace, app_nil_l, length_map.
  apply prefix_length in Hpre. rewrite length_map in Hpre.
  split_and!.
  - by rewrite Htr, app_assoc.
  - exact Hpre.
  - rewrite length_app, length_membersTrace. cbn. lia.
  - intros ->. rewrite (Hok eq_refl). apply length_map.
Qed.
End RunCalls.

Section GroupDeletes.
Context {W DF AF DPF : Type} `{!KappEnv W DF AF} `{!KappEnvLaws W DF AF}.
Implicit Types (o : DeleteOptions DF AF DPF) (s : St W DF AF).

Lemma selectorMatches_group_bool name a :
  selectorMatches (groupSelector name) a = bool_decide (app_labels a !! appGroupAnnKey = Some name).
Proof.
  destruct (selectorMatches _ a) eqn:E; symmetry.
  - by apply bool_decide_eq_true, selectorMatches_group.
  - apply bool_decide_eq_false. rewrite <- selectorMatches_group, E. discriminate.
Qed.

(** C18: a successful [Run] makes one delete call for each recorded
    application labelled with the group's annotation and in the scope
    of the namespace [appNamespace], in the order the registry records
    them, and no other delete call. *)
Theorem Run_success_deletes_group o s :
  (Run o s).1 = Ok tt ->
  exists t, st_trace (Run o s).2 = st_trace s ++ t /\
    map (fun cfg => cmdapp.Name (cmdapp.AppFlags cfg)) (deleteCalls t) =
    map app_name (List.filter (fun a => inScope (appNamespace o) a &&
        bool_decide (app_labels a !! appGroupAnnKey = Some (Name (AppGroupFlags o))))
      (env_apps (st_world s))).
Proof.
  destruct (Run o s) as [r s'] eqn:Hrun. cbn [fst snd]. intros ->.
  destruct (Run_ok_inv o s s' Hrun) as (Hn & sup & apps & Hf & Hl & Hok).
  rewrite (Run_resolved o s sup apps Hn Hf Hl),
    (deleteEach_ok o apps (mkSt (st_world s) (st_trace s ++ resolveTrace o sup)) _ Hok) in Hrun.
  injection Hrun as <-. cbn [st_trace].
  exists (resolveTrace o sup ++ membersTrace o (map app_name apps)).
  split; [by rewrite app_assoc|].
  rewrite deleteCalls_app, deleteCalls_resolveTrace, app_nil_l, deleteCalls_names,
    (group_listing _ _ _ _ Hf Hl).
  unfold groupMembers, listed. f_equal. apply filter_ext. intros a.
  by rewrite selectorMatches_group_bool.
Qed.
End GroupDeletes.

Section DistinctDeletes.
Context {W DF AF DPF : Type} `{!KappEnv W DF AF} `{!KappEnvLaws W DF AF}.
Implicit Types (o : DeleteOptions DF AF DPF) (s : St W DF AF).

(** In one namespace, unique keys make unique names. *)
Lemma NoDup_names_listed ns sel apps :
  ns <> ""%string -> NoDup (map appKey apps) -> NoDup (map app_name (listed ns sel apps)).
Proof.
  intros Hns. induction apps as [|a apps IH]; intros Hnd; [constructor|].
  inversion Hnd as [|? ? Hnot Hnd']; subst. unfold listed in *. cbn.
  destruct (inScope ns a && selectorMatches sel a) eqn:Ha; cbn; [|by apply IH].
  constructor; [|by apply IH].
  intros (b & Hname & Hb)%list_elem_of_In%in_map_iff. apply Hnot, list_elem_of_In.
  apply filter_In in Hb as [Hb Hbsel]. apply andb_true_iff in Ha as [Ha _].
  apply andb_true_iff in Hbsel as [Hbs _].
  apply (inScope_ns ns) in Ha; [|done]. apply (inScope_ns ns) in Hbs; [|done].
  apply in_map_iff. exists b. split; [|done]. unfold appKey. congruence.
Qed.

(** C27: with a namespace set and recorded applications with unique
    (name, namespace) keys, the delete calls of a run target pairwise
    distinct application names: no application is deleted twice. *)
Theorem Run_deletes_distinct o s :
  appNamespace o <> ""%string -> wfApps (env_apps (st_world s)) ->
  exists t, st_trace (Run o s).2 = st_trace s ++ t /\
    NoDup (map (fun cfg => cmdapp.Name (cmdapp.AppFlags cfg)) (deleteCalls t)).
Proof.
  intros Hns Hwf. destruct (Run o s) as [r s'] eqn:Hrun. cbn [snd].
  destruct (Run_cases o s r s' Hrun)
    as [(_ & _ & ->) | [(e & _ & _ & _ & ->) | [(sup & e & _ & _ & _ & _ & ->) |
        (sup & apps & _ & Hf & Hl & Hloop)]]].
  - exists []. rewrite app_nil_r. split; [done | constructor].
  - exists [factoryEvent o]. split; [done | constructor].
  - exists (resolveTrace o sup). split; [done | constructor].
  - apply deleteEach_trace in Hloop as (names & [k Hk] & Htr & _). cbn [st_trace] in Htr.
    exists (resolveTrace o sup ++ membersTrace o names). split; [by rewrite Htr, app_assoc|].
    rewrite deleteCalls_app, deleteCalls_resolveTrace, app_nil_l, deleteCalls_names.
    pose proof (NoDup_names_listed (appNamespace o) (groupSelector (Name (AppGroupFlags o)))
                  _ Hns Hwf) as Hnd.
    fold (groupMembers o (st_world s)) in Hnd.
    rewrite <- (group_listing _ _ _ _ Hf Hl), Hk in Hnd.
    by apply NoDup_app in Hnd as [? _].
Qed.
End DistinctDeletes.

Section Resume.
Context {W DF AF DPF : Type} `{!KappEnv W DF AF} `{!KappEnvLaws W DF AF}.
Implicit Types (o : DeleteOptions DF AF DPF) (s : St W DF AF).

(** Listing after deletes is deleting from the listing. *)
Lemma listed_removeAll ns sel names apps :
  listed ns sel (removeAll ns names apps) = removeAll ns names (listed ns sel apps).
Proof.
  unfold listed. rewrite !removeAll_filter, !filter_filter_std.
  apply filter_ext. intros a. apply andb_comm.
Qed.

(** C28: re-running resumes where a failed run stopped. When [Run]
    fails at member [b] after deleting the members [pre] before it, in a
    set namespace, the group's members in the cluster it leaves, which a
    re-run lists and deletes, form a sublist of [b :: post]: the members
    already deleted are not listed again, and the rest keep their
    order. *)
Theorem Run_rerun_resumes o s sup pre b post w1 e w2 :
  appNamespace o <> ""%string ->
  String.length (Name (AppGroupFlags o)) <> 0 ->
  FactoryClients (st_world s) (NamespaceFlags (AppGroupFlags o))
    (AppNamespace (AppGroupFlags o)) = Ok sup ->
  AppsList (st_world s) (Apps sup) (groupSelector (Name (AppGroupFlags o)))
    = Ok (pre ++ b :: post) ->
  deletesOk o (map app_name pre) (st_world s) w1 ->
  AppDeleteRun (deleteAppOpts o (app_name b)) w1 = (Err e, w2) ->
  groupMembers o (st_world (Run o s).2) `sublist_of` b :: post.
Proof.
  intros Hns Hn Hf Hl Hok Hb.
  pose proof (group_listing _ _ _ _ Hf Hl) as Hmem.
  rewrite (Run_resolved o s sup _ Hn Hf Hl),
    (deleteEach_fail o pre b post (mkSt (st_world s) (st_trace s ++ resolveTrace o sup))
       w1 e w2 Hok Hb). cbn [st_world snd].
  unfold groupMembers. etrans.
  { apply filter_sublist_mono, (app_delete_sublist _ _ _ _ Hb). }
  fold (listed (appNamespace o) (groupSelector (Name (AppGroupFlags o))) (env_apps w1)).
  rewrite (deletesOk_apps _ _ _ _ Hok), listed_removeAll.
  fold (groupMembers o (st_world s)). rewrite <- Hmem, removeAll_filter, List.filter_app.
  rewrite filter_none; [apply filter_sublist|].
  intros a Ha. apply negb_false_iff, andb_true_iff. split.
  - apply bool_decide_eq_true, list_elem_of_In, in_map, Ha.
  - apply String.eqb_eq. apply (groupMembers_ns o (st_world s)); [done|].
    rewrite <- Hmem. apply in_or_app. by left.
Qed.
End Resume.

(** ** Witnesses at a concrete cluster *)

Local Open Scope string_scope.

Lemma Run_call_counts_witness :
  let o := sampleOpts "g1" "" "ns1" in
  let s := start (healthy sampleApps) in
  exists t, (st_trace (Run o s).2 = st_trace s ++ t /\
    length (deleteCalls t) <= length [appA; appB; appC] /\
    length t = 2 + 2 * length (deleteCalls t) /\
    ((Run o s).1 = Ok tt -> length (deleteCalls t) = length [appA; appB; appC]))%list.
Proof.
  intros o s. apply (Run_call_counts o s (mkFactorySupportObjs (mkAppsClient "ns1"))).
  - cbn. lia.
  - reflexivity.
  - vm_compute. reflexivity.
Defined.

Lemma Run_deletes_distinct_witness :
  let o := sampleOpts "g1" "" "ns1" in
  let s := start (healthy sampleApps) in
  wfApps (@env_apps Cluster string bool _ _ (st_world s)) /\
  exists t, (st_trace (Run o s).2 = st_trace s ++ t /\
    NoDup (map (fun cfg => cmdapp.Name (cmdapp.AppFlags cfg)) (deleteCalls t)))%list.
Proof.
  intros o s. assert (Hwf : wfApps (@env_apps Cluster string bool _ _ (st_world s)))
    by (apply (bool_decide_unpack _); vm_compute; reflexivity).
  split; [exact Hwf | apply (Run_deletes_distinct o s); [discriminate | exact Hwf]].
Defined.

Local Abbreviation clusterApps := (@env_apps Cluster string bool _ _).

Lemma Run_rerun_resumes_witness :
  let o := sampleOpts "g1" "" "ns1" in
  let c := failingOn "app-b" (Errorf "timed out") sampleApps in
  groupMembers o (st_world (Run o (start c)).2) `sublist_of` [appB; appC].
Proof.
  intros o c. eapply (Run_rerun_resumes o (start c) _ [appA] appB [appC]).
  - discriminate.
  - cbn. lia.
  - reflexivity.
  - vm_compute. reflexivity.
  - econstructor; [reflexivity | constructor].
  - reflexivity.
Defined.

Lemma Run_success_deletes_group_witness :
  let o := sampleOpts "g1" "" "ns1" in
  let s := start (healthy sampleApps) in
  (Run o s).1 = Ok tt /\
  exists t, (st_trace (Run o s).2 = st_trace s ++ t /\
    map (fun cfg => cmdapp.Name (cmdapp.AppFlags cfg)) (deleteCalls t) =
    map app_name (List.filter (fun a => inScope (appNamespace o) a &&
        bool_decide (app_labels a !! appGroupAnnKey = Some (Name (AppGroupFlags o))))
      (clusterApps (st_world s))))%list.
Proof.
  intros o s. assert (Hok : (Run o s).1 = Ok tt) by (vm_compute; reflexivity).
  split; [exact Hok | exact (Run_success_deletes_group o s Hok)].
Defined.
