(* ===== verification/StateMachine.v ===== *)
(** * The state machine of [app-group delete]

    Section 4.2 of the spec describes [Run] as a linear state machine:
    NotStarted, Resolving, PerMemberDelete(i), then Done, or Failed on
    the first error. [step] is that machine over the command's state
    [St]: one rule per transition, each firing on what the collaborators
    return. It is the abstract specification of [Run]:
    - [Run_refines_machine]: the run of [Run] is a path of the machine
      from NotStarted to the terminal configuration it returns, and,
      since [step] is deterministic ([step_deterministic]) and terminal
      configurations have no successor ([terminal_nf]), it is the only
      terminal configuration the machine reaches from that start: a
      [Run] that went on after an error, or stopped early, would end in
      another one. *)

From S2P Require Import Prelude Flags Env Cluster GroupDelete.

Inductive phase :=
| NotStarted
| Resolving
(** [i] members done, [rest] still to delete *)
| PerMemberDelete (i : nat) (rest : list App)
| Done
| Failed (e : error).

Definition terminal (ph : phase) : Prop :=
  match ph with
  | Done | Failed _ => True
  | _ => False
  end.

(** The terminal phase of an outcome of [Run]. *)
Definition outcome (r : result unit) : phase :=
  match r with
  | Ok _ => Done
  | Err e => Failed e
  end.

Lemma name_nonempty (n : string) : String.length n <> 0 -> n <> ""%string.
Proof. by intros Hn ->. Qed.

Section Machine.
Context {W DF AF DPF : Type} `{!KappEnv W DF AF}.
Context (o : DeleteOptions DF AF DPF).

Local Abbreviation config := (phase * St W DF AF)%type.
Local Abbreviation nf := (NamespaceFlags (AppGroupFlags o)).
Local Abbreviation appNs := (AppNamespace (AppGroupFlags o)).
Local Abbreviation sel := (groupSelector (Name (AppGroupFlags o))).

Inductive step : config -> config -> Prop :=
| step_reject s :
    Name (AppGroupFlags o) = ""%string ->
    step (NotStarted, s) (Failed errEmptyGroupName, s)
| step_start s :
    Name (AppGroupFlags o) <> ""%string ->
    step (NotStarted, s) (Resolving, s)
| step_factory_fail s e :
    FactoryClients (st_world s) nf appNs = Err e ->
    step (Resolving, s) (Failed e, record (factoryEvent o) s)
| step_list_fail s sup e :
    FactoryClients (st_world s) nf appNs = Ok sup ->
    AppsList (st_world s) (Apps sup) sel = Err e ->
    step (Resolving, s) (Failed e, mkSt (st_world s) (st_trace s ++ resolveTrace o sup))
| step_resolved s sup apps :
    FactoryClients (st_world s) nf appNs = Ok sup ->
    AppsList (st_world s) (Apps sup) sel = Ok apps ->
    step (Resolving, s) (PerMemberDelete 0 apps, mkSt (st_world s) (st_trace s ++ resolveTrace o sup))
| step_member_ok i a rest s w' :
    AppDeleteRun (deleteAppOpts o (app_name a)) (st_world s) = (Ok tt, w') ->
    step (PerMemberDelete i (a :: rest), s)
         (PerMemberDelete (S i) rest, mkSt w' (st_trace s ++ memberTrace o (app_name a)))
| step_member_fail i a rest s e w' :
    AppDeleteRun (deleteAppOpts o (app_name a)) (st_world s) = (Err e, w') ->
    step (PerMemberDelete i (a :: rest), s)
         (Failed e, mkSt w' (st_trace s ++ memberTrace o (app_name a)))
| step_done i s :
    step (PerMemberDelete i [], s) (Done, s).

#[local] Hint Constructors step : kapp.
#[local] Hint Resolve rtc_once name_nonempty : kapp.

Lemma step_deterministic c c1 c2 : step c c1 -> step c c2 -> c1 = c2.
Proof. intros H1 H2. inversion H1; subst; inversion H2; subst; congruence. Qed.

Lemma terminal_nf ph s : terminal ph -> stdpp.relations.nf step (ph, s).
Proof. intros Ht [c Hs]. inversion Hs; subst; done. Qed.

(** The loop is a run of the PerMemberDelete phase. *)
Lemma loop_refines i apps s :
  rtc step (PerMemberDelete i apps, s)
      (outcome (deleteEach o apps s).1, (deleteEach o apps s).2).
Proof.
  revert i s. induction apps as [|a apps IH]; intros i s.
  - cbn. eauto with kapp.
  - cbn [deleteEach]. unfold bind at 1 2. rewrite deleteApp_eq.
    destruct (AppDeleteRun _ (st_world s)) as [[[]|e] w'] eqn:Hd.
    + eapply rtc_l; [by apply step_member_ok | apply IH].
    + cbn. eauto with kapp.
Qed.
(** The run of [Run] is a path of the machine. *)
Lemma Run_path s : rtc step (NotStarted, s) (outcome (Run o s).1, (Run o s).2).
Proof.
  destruct (Run o s) as [r s'] eqn:Hrun. cbn [fst snd].
  destruct (Run_cases o s r s' Hrun)
    as [(Hn & -> & ->) | [(e & Hn & Hf & -> & ->) | [(sup & e & Hn & Hf & Hl & -> & ->) |
        (sup & apps & Hn & Hf & Hl & Hloop)]]].
  - eauto with kapp.
  - eapply rtc_l; eauto with kapp.
  - eapply rtc_l; eauto with kapp.
  - eapply rtc_l; [eauto with kapp|].
    eapply rtc_l; [by eapply step_resolved|].
    pose proof (loop_refines 0 apps (mkSt (st_world s) (st_trace s ++ resolveTrace o sup))) as Hp.
    by rewrite Hloop in Hp.
Qed.

End Machine.

Section MachineTheorems.
Context {W DF AF DPF : Type} `{!KappEnv W DF AF}.
Implicit Types (o : DeleteOptions DF AF DPF) (s : St W DF AF).

(** C16: [Run] implements the machine: its result and final state form
    a terminal configuration reachable from NotStarted, and the only
    one. *)
Theorem Run_refines_machine o s :
  rtc (step o) (NotStarted, s) (outcome (Run o s).1, (Run o s).2) /\
  forall c, rtc (step o) (NotStarted, s) c -> terminal c.1 ->
            c = (outcome (Run o s).1, (Run o s).2).
Proof.
  split; [apply Run_path|]. intros [ph s'] Hc Ht.
  eapply rtc_deterministic_nf;
    [apply (step_deterministic o) | exact Hc | apply Run_path | by apply terminal_nf |].
  apply terminal_nf. by destruct (Run o s).1.
Qed.
End MachineTheorems.
